(** * btblocklist: the updater (updater/updater.go)

    A shallow embedding of the refresh / merge / publish pipeline of the
    [updater] package: the scheduler loop [updater], one batch
    [updaterBatch], the merge-and-compress step
    [compileFinalDataBlobFromCache] and the status report [updateStatus].

    Go values are modelled as follows.
    - [string] and [[]byte] are byte sequences: Rocq's [string] (a list of
      8-bit characters).  A byte slice that may be [nil] is an
      [option string], [None] being [nil].
    - [int] is a 64-bit two's complement integer: a [Z] with the wrap-around
      of [+=] written out ([int_add]).
    - [map[string]T] is a [gmap string T].  The order in which a [range]
      statement visits a map is not fixed by Go: it is given by a
      [MapIteration], a permutation of the entries chosen per statement.
    - [time.Time] is a [Z] (an instant on the clock read by [time.Now]).
    - Calls to collaborators (logger, status sink, ticker) are recorded in
      an event trace; their answers are inputs ([BatchEnv]). *)

From Stdlib Require Import ZArith String Ascii DecimalString.
From stdpp Require Import gmap strings list fin_maps sorting.

Open Scope Z_scope.

(** ** Go basics *)

Definition error := string.
Definition Time := Z.

(** The line feed, Go's ["\n"]. *)
Definition LF : string := String "010"%char EmptyString.

(** [strings.Join(elems, sep)]. *)
Fixpoint Join (elems : list string) (sep : string) : string :=
  match elems with
  | [] => ""
  | [e] => e
  | e :: rest => e +:+ sep +:+ Join rest sep
  end.

(** The range of [int] on the 64-bit platforms the program is built for. *)
Definition int_min : Z := - 2 ^ 63.
Definition int_max : Z := 2 ^ 63 - 1.
Definition wrap_int (z : Z) : Z := (z + 2 ^ 63) mod 2 ^ 64 - 2 ^ 63.
Definition int_add (a b : Z) : Z := wrap_int (a + b).

(** [len] of a slice and of a map. *)
Definition len {A} (l : list A) : Z := Z.of_nat (length l).
Definition len_map {V} (m : gmap string V) : Z := Z.of_nat (size m).

(** The verb [%d] of [fmt.Sprintf]: decimal digits, a minus sign when
    negative. *)
Definition FormatInt (z : Z) : string := NilZero.string_of_int (Z.to_int z).

(** *** Iterating over a map

    "The iteration order over maps is not specified and is not guaranteed
    to be the same from one iteration to the next" (Go language
    specification).  Each [range] statement over a map draws a seed; the
    runtime answers with some permutation of the entries. *)
Record MapIteration := {
  range : forall {V : Type}, nat -> gmap string V -> list (string * V);
  range_perm : forall (V : Type) (seed : nat) (m : gmap string V),
      range seed m ≡ₚ map_to_list m
}.

(** Ascending by key (bytewise, as Go compares strings). *)
Definition key_le {V} (a b : string * V) : Prop := String.leb a.1 b.1 = true.

#[global] Instance key_le_dec {V} (a b : string * V) : Decision (key_le a b).
Proof. unfold key_le. apply _. Defined.

Definition ascending {V} (m : gmap string V) : list (string * V) :=
  merge_sort key_le (map_to_list m).

Lemma ascending_perm {V} (m : gmap string V) : ascending m ≡ₚ map_to_list m.
Proof. apply merge_sort_Permutation. Qed.

(** A runtime that happens to iterate in ascending key order. *)
Definition sorted_iteration : MapIteration :=
  {| range := fun V _ m => ascending m;
     range_perm := fun V _ m => ascending_perm m |}.

(** A runtime whose order depends on the seed: ascending on even seeds,
    descending on odd ones. *)
Definition flip_range {V} (seed : nat) (m : gmap string V) : list (string * V) :=
  if Nat.even seed then ascending m else rev (ascending m).

Lemma flip_range_perm V (seed : nat) (m : gmap string V) :
  flip_range seed m ≡ₚ map_to_list m.
Proof.
  unfold flip_range. destruct (Nat.even seed).
  - apply ascending_perm.
  - rewrite <- Permutation_rev. apply ascending_perm.
Qed.

Definition flip_iteration : MapIteration :=
  {| range := @flip_range; range_perm := flip_range_perm |}.

(** *** bytes.Buffer

    The buffer is its underlying slice ([nil] for [bytes.NewBuffer(nil)]);
    nothing is ever read from it before [Bytes], so its read offset stays 0.
    [Write] never returns an error; writing no bytes to a [nil] buffer
    leaves the slice [nil]. *)
Module Buffer.
Definition t := option string.

Definition NewBuffer (buf : option string) : t := buf.

Definition Write (b : t) (p : string) : t * option error :=
  match b with
  | None => (if decide (p = "") then None else Some p, None)
  | Some s => (Some (s +:+ p), None)
  end.

Definition Bytes (b : t) : option string := b.
End Buffer.

(** *** compress/gzip, as the compiler uses it

    A writer is created over a buffer at a level, is written to, and is
    closed; the buffer is read afterwards.  The writer holds a pointer to
    the buffer: in the model the buffer lives in the writer's state and
    [gz_sink] reads it. *)
Record GzipLib := {
  gz_Writer : Type;
  gz_NewWriterLevel : Buffer.t -> Z -> gz_Writer + error;
  gz_Write : gz_Writer -> string -> gz_Writer * option error;
  gz_Close : gz_Writer -> gz_Writer * option error;
  gz_sink : gz_Writer -> Buffer.t
}.

Definition HuffmanOnly : Z := -2.
Definition BestSpeed : Z := 1.
Definition BestCompression : Z := 9.

(** The ten bytes [gzip.Writer] emits on its first [Write]: magic 1f 8b,
    method 8 (deflate), no flags, no modification time (the [Header] is
    left at its zero value), the extra-flags byte set from the level, and
    the operating system 255 (unknown). *)
Definition byte_of (n : N) : string := String (ascii_of_N n) EmptyString.

Definition gzip_header (level : Z) : string :=
  byte_of 31 +:+ byte_of 139 +:+ byte_of 8 +:+ byte_of 0 +:+
  byte_of 0 +:+ byte_of 0 +:+ byte_of 0 +:+ byte_of 0 +:+
  byte_of (if decide (level = BestCompression) then 2
           else if decide (level = BestSpeed) then 4 else 0) +:+
  byte_of 255.

(** What follows the header is produced by the deflate compressor and the
    CRC-32 / size trailer, which are not modelled bit by bit: [gzip_body]
    gives the bytes emitted for a level and the sequence of chunks written,
    [gunzip] is a decompressor, and the only fact used is that
    decompression gives back what was written. *)
Record GzipCodec := {
  gzip_body : Z -> list string -> string;
  gunzip : string -> option string;
  gunzip_stream : forall level chunks,
      gunzip (gzip_header level +:+ gzip_body level chunks)
      = Some (Join chunks "")
}.

(** An instance, to show that the interface is inhabited: the body is the
    payload as it is, and decompression drops the header. *)
Fixpoint string_drop (n : nat) (s : string) : string :=
  match n, s with
  | O, _ => s
  | S n', String _ s' => string_drop n' s'
  | S _, EmptyString => EmptyString
  end.

Definition plain_body (level : Z) (chunks : list string) : string :=
  Join chunks "".

Definition plain_gunzip (s : string) : option string :=
  Some (string_drop 10 s).

Lemma plain_gunzip_stream level chunks :
  plain_gunzip (gzip_header level +:+ plain_body level chunks)
  = Some (Join chunks "").
Proof. reflexivity. Qed.

Definition plain_codec : GzipCodec :=
  {| gzip_body := plain_body;
     gunzip := plain_gunzip;
     gunzip_stream := plain_gunzip_stream |}.

(** [gzip.Writer] over a [bytes.Buffer].  [NewWriterLevel] rejects a level
    outside [HuffmanOnly .. BestCompression].  [Write] emits the header
    on its first call and hands the chunk to the compressor; errors of
    [Write] and [Close] come from the underlying writer (a buffer, which
    reports none) or from writing to a closed compressor.  The compressed
    body reaches the buffer by the time [Close] returns. *)
Module gzip.
Section Model.
Context (codec : GzipCodec).

Record state := {
  w : Buffer.t;
  level : Z;
  wroteHeader : bool;
  chunks : list string;
  closed : bool;
  err : option error
}.

Definition NewWriterLevel (w : Buffer.t) (level : Z) : state + error :=
  if decide (level < HuffmanOnly \/ level > BestCompression)
  then inr "gzip: invalid compression level"
  else inl {| w := w; level := level; wroteHeader := false;
              chunks := []; closed := false; err := None |}.

Definition Write (z : state) (p : string) : state * option error :=
  match err z with
  | Some e => (z, Some e)
  | None =>
    let w1 := if wroteHeader z then w z
              else (Buffer.Write (w z) (gzip_header (level z))).1 in
    if closed z
    then ({| w := w1; level := level z; wroteHeader := true;
             chunks := chunks z; closed := true;
             err := Some "flate: closed writer" |},
          Some "flate: closed writer")
    else ({| w := w1; level := level z; wroteHeader := true;
             chunks := chunks z ++ [p]; closed := false; err := None |},
          None)
  end.

Definition Close (z : state) : state * option error :=
  match err z with
  | Some e => (z, Some e)
  | None =>
    if closed z then (z, None)
    else
      let w1 := if wroteHeader z then w z
                else (Buffer.Write (w z) (gzip_header (level z))).1 in
      let w2 := (Buffer.Write w1 (gzip_body codec (level z) (chunks z))).1 in
      ({| w := w2; level := level z; wroteHeader := true;
          chunks := chunks z; closed := true; err := None |}, None)
  end.

Definition lib : GzipLib :=
  {| gz_Writer := state;
     gz_NewWriterLevel := NewWriterLevel;
     gz_Write := Write;
     gz_Close := Close;
     gz_sink := w |}.
End Model.
End gzip.

(** A library whose writer cannot be created: every compilation fails. *)
Definition broken_gzip : GzipLib :=
  {| gz_Writer := unit;
     gz_NewWriterLevel := fun _ _ => inr "gzip: no writer";
     gz_Write := fun z _ => (z, Some "gzip: no writer");
     gz_Close := fun z => (z, Some "gzip: no writer");
     gz_sink := fun _ => None |}.

(** ** The controller *)

Inductive Level := Debug | Info | Error.

(** What the updater does to its collaborators: a logger call (level and
    format string; the formatted arguments are not recorded), a call of
    the status sink with its message, the creation and the stop of the
    ticker. *)
Inductive Event :=
| EvLog (lvl : Level) (format : string)
| EvStatus (msg : string)
| EvNewTicker (d : Z)
| EvTickerStop.

(** The fields of [Controller] the updater touches.  [compressedData] is
    guarded by [compressedDataAccess]; the updater is the only writer and
    takes the lock around its single assignment, which a sequential model
    does not need to show. *)
Record Controller := {
  frequency : Z;
  blocklists : gmap string string;
  ripeState : list string;
  externalStates : gmap string (list string);
  compressedData : option string;
  lastUpdate : Time;
  lastBatch : Time
}.

Definition set_ripeState (l : list string) (c : Controller) : Controller :=
  {| frequency := frequency c; blocklists := blocklists c;
     ripeState := l; externalStates := externalStates c;
     compressedData := compressedData c;
     lastUpdate := lastUpdate c; lastBatch := lastBatch c |}.

Definition set_externalStates (m : gmap string (list string)) (c : Controller)
  : Controller :=
  {| frequency := frequency c; blocklists := blocklists c;
     ripeState := ripeState c; externalStates := m;
     compressedData := compressedData c;
     lastUpdate := lastUpdate c; lastBatch := lastBatch c |}.

Definition set_compressedData (d : option string) (c : Controller) : Controller :=
  {| frequency := frequency c; blocklists := blocklists c;
     ripeState := ripeState c; externalStates := externalStates c;
     compressedData := d;
     lastUpdate := lastUpdate c; lastBatch := lastBatch c |}.

Definition set_lastUpdate (t : Time) (c : Controller) : Controller :=
  {| frequency := frequency c; blocklists := blocklists c;
     ripeState := ripeState c; externalStates := externalStates c;
     compressedData := compressedData c;
     lastUpdate := t; lastBatch := lastBatch c |}.

Definition set_lastBatch (t : Time) (c : Controller) : Controller :=
  {| frequency := frequency c; blocklists := blocklists c;
     ripeState := ripeState c; externalStates := externalStates c;
     compressedData := compressedData c;
     lastUpdate := lastUpdate c; lastBatch := t |}.

(** The answer of a probe: nothing new (which is also how a failed probe
    ends), or a full replacement of the source's lines. *)
Inductive ProbeOutcome :=
| NoChange
| Fresh (lines : list string).

(** What one batch receives from outside: the clock reading at its start,
    the probes' answers, the seeds of its three [range] statements (over
    [blocklists] when probing, over [externalStates] when merging and when
    counting), and the behaviour of the status sink [c.statusUpdate]. *)
Record BatchEnv := {
  now : Time;
  ripeProbe : ProbeOutcome;
  externalProbe : string -> string -> ProbeOutcome;
  seed_probe : nat;
  seed_merge : nat;
  seed_count : nat;
  statusUpdate : string -> option error
}.

(** Modelled from the spec: [updateRipe] is not in updater.go.  The
    authoritative probe "returns either no change or a full replacement
    ordered sequence; on replacement, mark anyChanged = true and overwrite
    the RipeLines slot"; a failing probe "leaves its slot untouched, is
    treated as no change". *)
Definition updateRipe (o : ProbeOutcome) (c : Controller) : Controller * bool :=
  match o with
  | NoChange => (c, false)
  | Fresh lines => (set_ripeState lines c, true)
  end.

(** Modelled from the spec: [getExternalBlockList] is not in updater.go.
    Each external probe "returns either no change or a full replacement
    ordered sequence for its name; on replacement, mark anyChanged = true
    and overwrite that source's slot". *)
Definition getExternalBlockList (o : ProbeOutcome) (name : string) (c : Controller)
  : Controller * bool :=
  match o with
  | NoChange => (c, false)
  | Fresh lines => (set_externalStates (<[name := lines]> (externalStates c)) c, true)
  end.

Definition timeFormat : string := "2 Jan 2006 15:04:05 MST".

Section Updater.
(** The compression library, the runtime's map iteration and
    [time.Time.Format]. *)
Context (gz : GzipLib) (rt : MapIteration) (Format : Time -> string -> string).

(** [io.Copy(compressor, bytes.NewBufferString(s))]: the source is a
    buffer, so its [WriteTo] runs: one [Write] of all its bytes, and no
    call at all when it is empty. *)
Definition Copy (z : gz_Writer gz) (s : string) : gz_Writer gz * option error :=
  if decide (s = "") then (z, None) else gz_Write gz z s.

(** The loop over [c.externalStates] of the merge (lines 97-108), in the
    order the map iteration yields. *)
Fixpoint writeExternal (z : gz_Writer gz) (entries : list (string * list string))
  : gz_Writer gz + Event :=
  match entries with
  | [] => inl z
  | (name, lines) :: rest =>
    match Copy z (Join lines LF) with
    | (_, Some _) =>
      inr (EvLog Error "[Updater] Can't copy '%s' results to the compressor: %v")
    | (z1, None) =>
      match gz_Write gz z1 LF with
      | (_, Some _) =>
        inr (EvLog Error "[Updater] Can't add \n after '%s' results: %v")
      | (z2, None) => writeExternal z2 rest
      end
    end
  end.

Definition header : string := "# BTBlocklist RIPE search" +:+ LF.

(** [compileFinalDataBlobFromCache]: the returned slice ([None] is
    [nil], the value of [data] on every early return) and the logger
    calls. *)
Definition compileFinalDataBlobFromCache (seed : nat) (c : Controller)
  : option string * list Event :=
  let merging := EvLog Info "[Updater] Merging and compressing all cached results" in
  let compressed := Buffer.NewBuffer None in
  match gz_NewWriterLevel gz compressed BestCompression with
  | inr _ =>
    (None, [merging; EvLog Error "[Updater] Can't create the gzip compressor: %v"])
  | inl compressor =>
    match gz_Write gz compressor header with
    | (_, Some _) =>
      (None, [merging; EvLog Error "[Updater] Can't write RIPE search header: %v"])
    | (compressor, None) =>
      match Copy compressor (Join (ripeState c) LF) with
      | (_, Some _) =>
        (None, [merging;
                EvLog Error "[Updater] Can't copy ripe results to the compressor: %v"])
      | (compressor, None) =>
        match gz_Write gz compressor LF with
        | (_, Some _) =>
          (None, [merging; EvLog Error "[Updater] Can't add \n after RIPE results: %v"])
        | (compressor, None) =>
          match writeExternal compressor (range rt seed (externalStates c)) with
          | inr failure => (None, [merging; failure])
          | inl compressor =>
            match gz_Close gz compressor with
            | (_, Some _) =>
              (None, [merging;
                      EvLog Error "[Updater] Can't flush remaining bytes from the gzip compressor: %v"])
            | (compressor, None) =>
              (Buffer.Bytes (gz_sink gz compressor),
               [merging;
                EvLog Info "[Updater] %d range(s) from RIPE search and %d line(s) from %d external blocklist(s) compressed to %s in %v"])
            end
          end
        end
      end
    end
  end.

(** [updateStatus]: the message is handed to the sink; a refusal is
    logged and nothing else happens. *)
Definition status_message (nbRIPEranges nbLists nbLines : Z)
           (lstModif lstBatch : Time) : string :=
  "RIPE: " +:+ FormatInt nbRIPEranges +:+
  " range(s) | External: " +:+ FormatInt nbLists +:+
  " list(s) with a total of " +:+ FormatInt nbLines +:+
  " line(s) | Last modification: " +:+ Format lstModif timeFormat +:+
  " | Last update: " +:+ Format lstBatch timeFormat.

Definition updateStatus (sink : string -> option error)
           (nbRIPEranges nbLists nbLines : Z) (lstModif lstBatch : Time)
  : list Event :=
  let msg := status_message nbRIPEranges nbLists nbLines lstModif lstBatch in
  match sink msg with
  | Some _ => [EvStatus msg; EvLog Error "[Updater] can't update status msg: %v"]
  | None => [EvStatus msg]
  end.

(** The probing loop over [c.blocklists] (lines 49-53). *)
Fixpoint probeExternal (env : BatchEnv) (entries : list (string * string))
         (c : Controller) (externalUpdate : bool) : Controller * bool :=
  match entries with
  | [] => (c, externalUpdate)
  | (name, url) :: rest =>
    let '(c1, fresh) := getExternalBlockList (externalProbe env name url) name c in
    probeExternal env rest c1 (if fresh then true else externalUpdate)
  end.

(** The counting loop of the deferred function (lines 40-43). *)
Definition countExternalLines (entries : list (string * list string)) : Z :=
  foldl (fun externalLines e => int_add externalLines (len e.2)) 0 entries.

(** The body of [updaterBatch] (lines 47-68): the controller when the
    body returns, before the deferred function runs. *)
Definition updaterBatch_body (env : BatchEnv) (batchStart : Time) (c : Controller)
  : Controller * list Event :=
  let '(c1, ripeUpdate) := updateRipe (ripeProbe env) c in
  let '(c2, externalUpdate) :=
    probeExternal env (range rt (seed_probe env) (blocklists c1)) c1 false in
  if negb ripeUpdate && negb externalUpdate
  then (c2, [EvLog Info "[Updater] No new data, keeping cache"])
  else
    let '(data, log) := compileFinalDataBlobFromCache (seed_merge env) c2 in
    match data with
    | None => (c2, log)
    | Some d =>
      (set_lastUpdate batchStart (set_compressedData (Some d) c2),
       log ++ [EvLog Debug "[Updater] global cache updated"])
    end.

(** The deferred function (lines 38-45), run on every return. *)
Definition updaterBatch_deferred (env : BatchEnv) (batchStart : Time) (c : Controller)
  : Controller * list Event :=
  let c' := set_lastBatch batchStart c in
  let externalLines :=
    countExternalLines (range rt (seed_count env) (externalStates c')) in
  (c', updateStatus (statusUpdate env)
                    (len (ripeState c')) (len_map (externalStates c'))
                    externalLines (lastUpdate c') (lastBatch c')).

Definition updaterBatch (env : BatchEnv) (c : Controller) : Controller * list Event :=
  let batchStart := now env in
  let '(c1, t1) := updaterBatch_body env batchStart c in
  let '(c2, t2) := updaterBatch_deferred env batchStart c1 in
  (c2, EvLog Debug "[Updater] worker: starting a new batch" :: t1 ++ t2).

(** What the [select] of the scheduler loop receives: a tick (with what
    the batch it starts will meet) or the cancellation of the context. *)
Inductive Selected :=
| Tick (env : BatchEnv)
| Done.

(** The loop of [updater] (lines 23-32) over the cases its [select]
    takes, in order.  The flag tells whether the function has returned;
    it has not when the cases run out before a cancellation. *)
Fixpoint updater_loop (cases : list Selected) (c : Controller)
  : Controller * list Event * bool :=
  match cases with
  | [] => (c, [], false)
  | Tick env :: rest =>
    let '(c1, t1) := updaterBatch env c in
    let '(c2, t2, returned) := updater_loop rest c1 in
    (c2, t1 ++ t2, returned)
  | Done :: _ =>
    (c, [EvLog Debug "[Updater] worker received stop signal"; EvTickerStop], true)
  end.

Definition updater (first : BatchEnv) (cases : list Selected) (c : Controller)
  : Controller * list Event * bool :=
  let '(c1, t1) := updaterBatch first c in
  let '(c2, t2, returned) := updater_loop cases c1 in
  (c2, EvNewTicker (frequency c) :: t1 ++ t2, returned).
End Updater.

(** ** The text a compilation writes *)

(** One section of the published text: the lines joined by a line feed,
    then one more line feed. *)
Definition section_text (lines : list string) : string := Join lines LF +:+ LF.

(** The sections of the external sources, in a given order. *)
Fixpoint sections_text (entries : list (string * list string)) : string :=
  match entries with
  | [] => ""
  | (_, lines) :: rest => section_text lines +:+ sections_text rest
  end.

(** Header, authoritative section, external sections. *)
Definition blob_text (ripe : list string) (entries : list (string * list string))
  : string :=
  header +:+ section_text ripe +:+ sections_text entries.

(** The text the specification describes: external sources by name,
    ascending. *)
Definition spec_text (c : Controller) : string :=
  blob_text (ripeState c) (ascending (externalStates c)).

(** The chunk [Copy] hands to the compressor, and the chunks of the
    external loop. *)
Definition copied (s : string) : list string :=
  if decide (s = "") then [] else [s].

Fixpoint external_chunks (entries : list (string * list string)) : list string :=
  match entries with
  | [] => []
  | (_, lines) :: rest => copied (Join lines LF) ++ [LF] ++ external_chunks rest
  end.

(** The number of lines held for the external sources. *)
Definition total_lines (m : gmap string (list string)) : Z :=
  foldr (fun e acc => len e.2 + acc) 0 (map_to_list m).

(** The controller after the probes of a batch, and whether any of them
    brought new data. *)
Definition probed (rt : MapIteration) (env : BatchEnv) (c : Controller)
  : Controller * bool :=
  let '(c1, ripeUpdate) := updateRipe (ripeProbe env) c in
  let '(c2, externalUpdate) :=
    probeExternal env (range rt (seed_probe env) (blocklists c1)) c1 false in
  (c2, ripeUpdate || externalUpdate).

Definition with_statusUpdate (sink : string -> option error) (env : BatchEnv)
  : BatchEnv :=
  {| now := now env; ripeProbe := ripeProbe env;
     externalProbe := externalProbe env;
     seed_probe := seed_probe env; seed_merge := seed_merge env;
     seed_count := seed_count env; statusUpdate := sink |}.

(** Successive batches, as the scheduler chains them. *)
Fixpoint run_batches (gz : GzipLib) (rt : MapIteration)
         (Format : Time -> string -> string)
         (envs : list BatchEnv) (c : Controller) : Controller * list Event :=
  match envs with
  | [] => (c, [])
  | env :: rest =>
    let '(c1, t1) := updaterBatch gz rt Format env c in
    let '(c2, t2) := run_batches gz rt Format rest c1 in
    (c2, t1 ++ t2)
  end.

#[global] Instance Level_eq_dec : EqDecision Level.
Proof. solve_decision. Defined.

#[global] Instance Event_eq_dec : EqDecision Event.
Proof. solve_decision. Defined.

Definition is_status (e : Event) : bool :=
  match e with EvStatus _ => true | _ => false end.

Definition is_error_log (e : Event) : bool :=
  match e with EvLog Error _ => true | _ => false end.

Definition batch_start : Event :=
  EvLog Debug "[Updater] worker: starting a new batch".

Definition count_events (P : Event -> bool) (t : list Event) : nat :=
  length (filter (fun e => P e = true) t).

Definition clocks (cases : list Selected) : list Time :=
  flat_map (fun s => match s with Tick env => [now env] | Done => [] end) cases.

(** Sample data: one configured list, nothing fetched yet; a batch in
    which both probes bring lines; a quiet batch. *)
Definition sample_controller : Controller :=
  {| frequency := 3600;
     blocklists := {[ "feodo" := "https://feodo.example/list.txt" ]};
     ripeState := [];
     externalStates := ∅;
     compressedData := None;
     lastUpdate := 0;
     lastBatch := 0 |}.

Definition sample_fresh (t : Time) : BatchEnv :=
  {| now := t;
     ripeProbe := Fresh ["A, 1.2.3.0/24, AS1"; "B, 4.5.6.0/24, AS2"];
     externalProbe := fun _ _ => Fresh ["9.9.9.9"; "8.8.8.8"];
     seed_probe := 0; seed_merge := 0; seed_count := 0;
     statusUpdate := fun _ => None |}.

Definition sample_quiet (t : Time) : BatchEnv :=
  {| now := t;
     ripeProbe := NoChange;
     externalProbe := fun _ _ => NoChange;
     seed_probe := 0; seed_merge := 1; seed_count := 2;
     statusUpdate := fun _ => Some "sink unreachable" |}.

Definition sample_Format (t : Time) (layout : string) : string := FormatInt t.

(** Two external sources, to tell iteration orders apart. *)
Definition two_sources : Controller :=
  set_externalStates (<[ "b" := ["2.2.2.2"] ]> (<[ "a" := ["1.1.1.1"] ]> ∅))
                     sample_controller.

(** ** Notions used in the statements *)

(** A writer that has emitted its header and is still open. *)
Definition live (z : gzip.state) : Prop :=
  gzip.err z = None /\ gzip.closed z = false /\ gzip.wroteHeader z = true /\
  gzip.w z = Some (gzip_header (gzip.level z)).

(** The same writer after more chunks. *)
Definition fed (z : gzip.state) (ps : list string) : gzip.state :=
  {| gzip.w := gzip.w z; gzip.level := gzip.level z;
     gzip.wroteHeader := true; gzip.chunks := gzip.chunks z ++ ps;
     gzip.closed := false; gzip.err := None |}.

(** The chunks one compilation writes. *)
Definition compile_chunks (ripe : list string)
           (entries : list (string * list string)) : list string :=
  [header] ++ copied (Join ripe LF) ++ [LF] ++ external_chunks entries.

(** The blob a compilation over the buffer-backed writer returns. *)
Definition gzip_blob (codec : GzipCodec) (ripe : list string)
           (entries : list (string * list string)) : string :=
  gzip_header BestCompression
  +:+ gzip_body codec BestCompression (compile_chunks ripe entries).

(** The fields of the published snapshot. *)
Definition snapshot (c : Controller) : option string * Time * Time :=
  (compressedData c, lastUpdate c, lastBatch c).

(** A logger call at level [Info] or [Error]. *)
Definition plain_log (e : Event) : Prop :=
  exists lvl format, e = EvLog lvl format /\ lvl <> Debug.

(** Events of the body: logger calls other than the one opening a batch. *)
Definition inner_log (e : Event) : Prop :=
  exists lvl format, e = EvLog lvl format /\ e <> batch_start.

(** The sum of the line counts of a sequence of entries. *)
Definition sum_lines (entries : list (string * list string)) : Z :=
  foldr (fun e acc => len e.2 + acc) 0 entries.

(** The status messages of a trace carry a content-change time that is
    not after the batch-attempt time. *)
Definition ordered_status (Format : Time -> string -> string) (e : Event) : Prop :=
  forall msg, e = EvStatus msg ->
    exists n m k t1 t2, msg = status_message Format n m k t1 t2 /\ t1 <= t2.

(** The logger call that opens a batch. *)
Definition is_batch_start (e : Event) : bool := bool_decide (e = batch_start).

(** ** The authoritative lookup (ripe/search.go) *)

(** [strings.Split(s, sep)] for a separator of one byte, as [Search]
    calls it: the fields between the separators, empty ones included; a
    string without separator is its own single field. *)
Fixpoint Split (s : string) (sep : ascii) : list string :=
  match s with
  | EmptyString => [""]
  | String a s' =>
    if decide (a = sep) then "" :: Split s' sep
    else match Split s' sep with
         | field :: fields => String a field :: fields
         | [] => [String a ""]
         end
  end.

(** Every occurrence of a byte replaced by a string. *)
Fixpoint substitute (sep : ascii) (by_ : string) (s : string) : string :=
  match s with
  | EmptyString => ""
  | String a s' =>
    if decide (a = sep) then by_ +:+ substitute sep by_ s'
    else String a (substitute sep by_ s')
  end.

(** The number of occurrences of a byte. *)
Fixpoint occurrences (sep : ascii) (s : string) : nat :=
  match s with
  | EmptyString => 0
  | String a s' => (if decide (a = sep) then 1 else 0) + occurrences sep s'
  end.

Module ripe.
Record Range := { Name : string; Range_ : string; Route : string }.

Section Search.
(** What [Search] uses and the file does not hold: the URL made of
    [baseURL] with its parameter [q] set and encoded, the HTTP client's
    [Get], the JSON decoder (the payload it filled and its error) and
    [extractRange]. *)
Context {Body Payload : Type}.
Context (requestURL : string -> string)
        (Get : string -> Body + error)
        (Decode : Body -> Payload * option error)
        (extractRange : Payload -> option (list Range) * option error).

(** The value of the parameter [q]: the terms of the search, joined by
    [AND], in brackets. *)
Definition query (search : string) : string :=
  "(" +:+ Join (Split search " "%char) " AND " +:+ ")".

(** [Search]: the ranges ([None] is [nil]) and the error returned.  The
    error of [Decode] is assigned to [err] and then overwritten by the
    results of [extractRange]. *)
Definition Search (search : string) : option (list Range) * option error :=
  match Get (requestURL (query search)) with
  | inr err => (None, Some err)
  | inl body =>
    let '(payload, _) := Decode body in
    extractRange payload
  end.
End Search.
End ripe.

(** ** More notions used in the statements *)

(** The same batch input with other seeds for its [range] statements. *)
Definition with_seeds (s1 s2 s3 : nat) (env : BatchEnv) : BatchEnv :=
  {| now := now env; ripeProbe := ripeProbe env;
     externalProbe := externalProbe env;
     seed_probe := s1; seed_merge := s2; seed_count := s3;
     statusUpdate := statusUpdate env |}.

(** The two logger calls that can end a compilation. *)
Definition merging_log : Event :=
  EvLog Info "[Updater] Merging and compressing all cached results".

Definition compressed_log : Event :=
  EvLog Info "[Updater] %d range(s) from RIPE search and %d line(s) from %d external blocklist(s) compressed to %s in %v".

Definition is_merging_log (e : Event) : bool := bool_decide (e = merging_log).

(** What is set when the controller is created. *)
Definition configuration (c : Controller) : Z * gmap string string :=
  (frequency c, blocklists c).

(** The line feeds of a text, and lines that hold none. *)
Definition line_feeds (s : string) : Z := Z.of_nat (occurrences "010"%char s).

Definition single_line (s : string) : Prop := occurrences "010"%char s = 0%nat.

(** The number of lines a section takes in the published text: one per
    line, and one for a section without lines. *)
Definition section_lines (lines : list string) : Z := Z.max 1 (len lines).

Definition sections_lines (entries : list (string * list string)) : Z :=
  foldr (fun e acc => section_lines e.2 + acc) 0 entries.

(** * Properties *)

(** ** Strings *)

Lemma string_app_cons (a : ascii) (s t : string) :
  String a s +:+ t = String a (s +:+ t).
Proof. reflexivity. Qed.

Lemma string_app_nil_r (s : string) : s +:+ "" = s.
Proof.
  induction s as [|a s IH]; [reflexivity |].
  now rewrite string_app_cons, IH.
Qed.

Lemma string_app_assoc (s t u : string) : (s +:+ t) +:+ u = s +:+ t +:+ u.
Proof.
  induction s as [|a s IH]; [reflexivity |].
  now rewrite !string_app_cons, IH.
Qed.

Lemma Join_empty_sep_cons (e : string) (rest : list string) :
  Join (e :: rest) "" = e +:+ Join rest "".
Proof.
  destruct rest as [|e' rest].
  - change (e = e +:+ ""). now rewrite string_app_nil_r.
  - reflexivity.
Qed.

Lemma Join_empty_sep_app (a b : list string) :
  Join (a ++ b) "" = Join a "" +:+ Join b "".
Proof.
  induction a as [|e a IH].
  - reflexivity.
  - rewrite <- app_comm_cons, !Join_empty_sep_cons, IH.
    now rewrite string_app_assoc.
Qed.

Lemma Join_copied (s : string) : Join (copied s) "" = s.
Proof. unfold copied. destruct (decide (s = "")) as [->|]; reflexivity. Qed.

Lemma Join_external_chunks (entries : list (string * list string)) :
  Join (external_chunks entries) "" = sections_text entries.
Proof.
  induction entries as [|[name lines] rest IH]; simpl.
  - reflexivity.
  - rewrite Join_empty_sep_app, Join_copied.
    change (LF :: external_chunks rest) with ([LF] ++ external_chunks rest).
    rewrite Join_empty_sep_app, IH. unfold section_text.
    now rewrite string_app_assoc.
Qed.

Lemma sections_text_app (a b : list (string * list string)) :
  sections_text (a ++ b) = sections_text a +:+ sections_text b.
Proof.
  induction a as [|[name lines] a IH]; simpl.
  - reflexivity.
  - now rewrite IH, string_app_assoc.
Qed.

(** ** The gzip writer over a buffer *)

Section GzipFacts.
Context (codec : GzipCodec).

Lemma live_fed z ps : live z -> live (fed z ps).
Proof. intros (? & ? & ? & ?). repeat split; assumption. Qed.

Lemma fed_nil z : live z -> fed z [] = z.
Proof.
  destruct z as [w l h cs cl e]. intros (He & Hc & Hh & _).
  simpl in *. subst. unfold fed. simpl. now rewrite app_nil_r.
Qed.

Lemma fed_fed z ps qs : fed (fed z ps) qs = fed z (ps ++ qs).
Proof. unfold fed. simpl. now rewrite app_assoc. Qed.

Lemma Write_live z p :
  live z -> gzip.Write z p = (fed z [p], None).
Proof.
  intros (He & Hc & Hh & _). unfold gzip.Write, fed.
  now rewrite He, Hh, Hc.
Qed.

Lemma Copy_live z s :
  live z -> Copy (gzip.lib codec) z s = (fed z (copied s), None).
Proof.
  intros Hz. unfold Copy, copied. destruct (decide (s = "")).
  - now rewrite fed_nil.
  - simpl. now apply Write_live.
Qed.

Lemma writeExternal_live entries : forall z,
  live z ->
  writeExternal (gzip.lib codec) z entries = inl (fed z (external_chunks entries)).
Proof.
  induction entries as [|[name lines] rest IH]; intros z Hz; simpl.
  - now rewrite fed_nil.
  - rewrite Copy_live by assumption.
    rewrite (Write_live (fed z _) LF) by now apply live_fed.
    rewrite IH by (do 2 apply live_fed; assumption).
    now rewrite !fed_fed.
Qed.

Lemma Close_live z :
  live z ->
  (gzip.Close codec z).2 = None /\
  gzip.w (gzip.Close codec z).1
  = Some (gzip_header (gzip.level z)
          +:+ gzip_body codec (gzip.level z) (gzip.chunks z)).
Proof.
  intros (He & Hc & Hh & Hw). unfold gzip.Close.
  rewrite He, Hc, Hh, Hw. simpl. split; reflexivity.
Qed.

Lemma Join_compile_chunks ripe entries :
  Join (compile_chunks ripe entries) "" = blob_text ripe entries.
Proof.
  unfold compile_chunks, blob_text, section_text.
  rewrite !Join_empty_sep_app, Join_copied, Join_external_chunks.
  simpl. now rewrite !string_app_assoc.
Qed.

Lemma compile_gzip_blob (rt : MapIteration) (seed : nat) (c : Controller) :
  compileFinalDataBlobFromCache (gzip.lib codec) rt seed c
  = (Some (gzip_blob codec (ripeState c) (range rt seed (externalStates c))),
     [EvLog Info "[Updater] Merging and compressing all cached results";
      EvLog Info "[Updater] %d range(s) from RIPE search and %d line(s) from %d external blocklist(s) compressed to %s in %v"]).
Proof.
  unfold compileFinalDataBlobFromCache. simpl.
  set (z0 := {| gzip.w := Some (gzip_header BestCompression);
                gzip.level := BestCompression; gzip.wroteHeader := true;
                gzip.chunks := [header]; gzip.closed := false;
                gzip.err := None |}).
  assert (Hz0 : live z0) by (repeat split; reflexivity).
  rewrite (Copy_live z0) by assumption.
  rewrite (Write_live (fed z0 _) LF) by now apply live_fed.
  rewrite writeExternal_live by (do 2 apply live_fed; assumption).
  rewrite !fed_fed.
  match goal with
  | |- context [gzip.Close codec ?z] =>
    destruct (Close_live z) as [Herr Hbuf]; [now apply live_fed |];
    destruct (gzip.Close codec z) as [z1 e1]
  end.
  simpl in Herr, Hbuf. subst e1.
  unfold Buffer.Bytes. rewrite Hbuf. reflexivity.
Qed.
End GzipFacts.

Lemma gunzip_gzip_blob (codec : GzipCodec) ripe entries :
  gunzip codec (gzip_blob codec ripe entries) = Some (blob_text ripe entries).
Proof.
  unfold gzip_blob. now rewrite gunzip_stream, Join_compile_chunks.
Qed.

(** ** Probing *)

Lemma updateRipe_snapshot o c : snapshot (updateRipe o c).1 = snapshot c.
Proof. destruct o; reflexivity. Qed.

Lemma getExternalBlockList_snapshot o name c :
  snapshot (getExternalBlockList o name c).1 = snapshot c.
Proof. destruct o; reflexivity. Qed.

Lemma probeExternal_snapshot env entries : forall c b,
  snapshot (probeExternal env entries c b).1 = snapshot c.
Proof.
  induction entries as [|[name url] rest IH]; intros c b; simpl.
  - reflexivity.
  - pose proof (getExternalBlockList_snapshot (externalProbe env name url) name c) as H.
    destruct (getExternalBlockList _ name c) as [c1 fresh]. simpl in H.
    now rewrite IH.
Qed.

Lemma probed_snapshot rt env c : snapshot (probed rt env c).1 = snapshot c.
Proof.
  unfold probed.
  pose proof (updateRipe_snapshot (ripeProbe env) c) as H1.
  destruct (updateRipe (ripeProbe env) c) as [c1 ru]. simpl in H1.
  pose proof (probeExternal_snapshot env
                (range rt (seed_probe env) (blocklists c1)) c1 false) as H2.
  destruct (probeExternal env _ c1 false) as [c2 eu]. simpl in *.
  congruence.
Qed.

Lemma probeExternal_quiet env entries : forall c b,
  Forall (fun e => externalProbe env e.1 e.2 = NoChange) entries ->
  probeExternal env entries c b = (c, b).
Proof.
  induction entries as [|[name url] rest IH]; intros c b Hall; simpl.
  - reflexivity.
  - inversion Hall as [|? ? Hhd Htl]; subst. simpl in Hhd. rewrite Hhd. simpl.
    now apply IH.
Qed.

(** The body of a batch, read through [probed]. *)
Lemma updaterBatch_body_probed gz rt env batchStart c :
  updaterBatch_body gz rt env batchStart c
  = if (probed rt env c).2
    then
      match compileFinalDataBlobFromCache gz rt (seed_merge env) (probed rt env c).1 with
      | (None, log) => ((probed rt env c).1, log)
      | (Some d, log) =>
        (set_lastUpdate batchStart (set_compressedData (Some d) (probed rt env c).1),
         log ++ [EvLog Debug "[Updater] global cache updated"])
      end
    else ((probed rt env c).1, [EvLog Info "[Updater] No new data, keeping cache"]).
Proof.
  unfold updaterBatch_body, probed.
  destruct (updateRipe (ripeProbe env) c) as [c1 ru].
  destruct (probeExternal env _ c1 false) as [c2 eu].
  destruct ru, eu; simpl; try reflexivity;
    destruct (compileFinalDataBlobFromCache gz rt (seed_merge env) c2) as [[d|] log];
    reflexivity.
Qed.

Lemma updaterBatch_unfold gz rt Format env c :
  updaterBatch gz rt Format env c
  = ((updaterBatch_deferred rt Format env (now env)
        (updaterBatch_body gz rt env (now env) c).1).1,
     batch_start :: (updaterBatch_body gz rt env (now env) c).2
       ++ (updaterBatch_deferred rt Format env (now env)
             (updaterBatch_body gz rt env (now env) c).1).2).
Proof.
  unfold updaterBatch.
  destruct (updaterBatch_body gz rt env (now env) c) as [c1 t1].
  cbn [fst snd].
  destruct (updaterBatch_deferred rt Format env (now env) c1) as [c2 t2].
  reflexivity.
Qed.

Lemma updaterBatch_state gz rt Format env c :
  (updaterBatch gz rt Format env c).1
  = set_lastBatch (now env) (updaterBatch_body gz rt env (now env) c).1.
Proof. rewrite updaterBatch_unfold. reflexivity. Qed.

(** ** One batch *)

(** C3: in a batch where the authoritative probe and every probe of a
    configured external source report no change, the published blob and
    the content timestamp are after the batch what they were before it,
    and the batch-attempt timestamp is the batch's start time. *)
Theorem quiet_batch_keeps_snapshot gz rt Format env c :
  ripeProbe env = NoChange ->
  (forall name url, blocklists c !! name = Some url ->
                    externalProbe env name url = NoChange) ->
  compressedData (updaterBatch gz rt Format env c).1 = compressedData c /\
  lastUpdate (updaterBatch gz rt Format env c).1 = lastUpdate c /\
  lastBatch (updaterBatch gz rt Format env c).1 = now env.
Proof.
  intros Hripe Hext.
  rewrite updaterBatch_state. unfold updaterBatch_body.
  rewrite Hripe. simpl.
  rewrite probeExternal_quiet.
  - simpl. repeat split; reflexivity.
  - apply Forall_forall. intros [name url] Hin. simpl.
    apply (Hext name url).
    apply elem_of_map_to_list.
    rewrite <- (range_perm rt _ (seed_probe env) (blocklists c)).
    exact Hin.
Qed.

Lemma quiet_batch_keeps_snapshot_witness :
  compressedData
    (updaterBatch (gzip.lib plain_codec) flip_iteration sample_Format
                  (sample_quiet 7) sample_controller).1 = None /\
  lastUpdate
    (updaterBatch (gzip.lib plain_codec) flip_iteration sample_Format
                  (sample_quiet 7) sample_controller).1 = 0 /\
  lastBatch
    (updaterBatch (gzip.lib plain_codec) flip_iteration sample_Format
                  (sample_quiet 7) sample_controller).1 = 7.
Proof.
  apply (quiet_batch_keeps_snapshot (gzip.lib plain_codec) flip_iteration
           sample_Format (sample_quiet 7) sample_controller).
  - reflexivity.
  - intros name url _. reflexivity.
Defined.

(** C4: in a batch where some probe brought new data and the compilation
    returns no data, nothing is published and the content timestamp stays:
    the blob and [lastUpdate] are those from before the batch. *)
Theorem failed_compilation_keeps_snapshot gz rt Format env c :
  (probed rt env c).2 = true ->
  (compileFinalDataBlobFromCache gz rt (seed_merge env) (probed rt env c).1).1 = None ->
  compressedData (updaterBatch gz rt Format env c).1 = compressedData c /\
  lastUpdate (updaterBatch gz rt Format env c).1 = lastUpdate c.
Proof.
  intros Hchanged Hfail.
  rewrite updaterBatch_state, updaterBatch_body_probed, Hchanged.
  destruct (compileFinalDataBlobFromCache gz rt (seed_merge env) (probed rt env c).1)
    as [[d|] log]; simpl in Hfail; [discriminate |].
  pose proof (probed_snapshot rt env c) as Hs. unfold snapshot in Hs.
  simpl. split; congruence.
Qed.

Lemma failed_compilation_keeps_snapshot_witness :
  compressedData
    (updaterBatch broken_gzip sorted_iteration sample_Format
                  (sample_fresh 5) sample_controller).1 = None /\
  lastUpdate
    (updaterBatch broken_gzip sorted_iteration sample_Format
                  (sample_fresh 5) sample_controller).1 = 0.
Proof.
  apply (failed_compilation_keeps_snapshot broken_gzip sorted_iteration
           sample_Format (sample_fresh 5) sample_controller).
  - vm_compute. reflexivity.
  - vm_compute. reflexivity.
Defined.

(** ** The merge *)

Lemma short_permutation {A} (l1 l2 : list A) :
  l1 ≡ₚ l2 -> (length l2 <= 1)%nat -> l1 = l2.
Proof.
  intros Hp Hlen. destruct l2 as [|x [|y l2]].
  - now apply Permutation_nil_r.
  - now apply Permutation_singleton_r.
  - simpl in Hlen. lia.
Qed.

Lemma range_small (rt : MapIteration) {V} (s1 s2 : nat) (m : gmap string V) :
  (size m <= 1)%nat -> range rt s1 m = range rt s2 m.
Proof.
  intros Hsize.
  assert (Hlen : (length (map_to_list m) <= 1)%nat)
    by now rewrite length_map_to_list.
  rewrite (short_permutation _ _ (range_perm rt V s1 m) Hlen).
  now rewrite (short_permutation _ _ (range_perm rt V s2 m) Hlen).
Qed.

Lemma gzip_blob_inj (codec : GzipCodec) ripe entries ripe' entries' :
  gzip_blob codec ripe entries = gzip_blob codec ripe' entries' ->
  blob_text ripe entries = blob_text ripe' entries'.
Proof.
  intros Heq.
  pose proof (gunzip_gzip_blob codec ripe entries) as H1.
  rewrite Heq, gunzip_gzip_blob in H1. congruence.
Qed.




(** C2, as the code has it: the blob decompresses to exactly the header
    line, the RIPE lines joined by one line feed and followed by one line
    feed, then for each external source, in the order in which the
    runtime's iteration yields them (each source once), its lines joined
    by one line feed and followed by one line feed, and nothing else.
    When the iteration happens to go by ascending name, this is the text
    of the specification. *)
Theorem compiled_blob_text codec rt seed c :
  exists blob,
    (compileFinalDataBlobFromCache (gzip.lib codec) rt seed c).1 = Some blob /\
    gunzip codec blob
    = Some (("# BTBlocklist RIPE search" +:+ LF) +:+
            (Join (ripeState c) LF +:+ LF) +:+
            sections_text (range rt seed (externalStates c))) /\
    range rt seed (externalStates c) ≡ₚ map_to_list (externalStates c) /\
    (range rt seed (externalStates c) = ascending (externalStates c) ->
     gunzip codec blob = Some (spec_text c)).
Proof.
  exists (gzip_blob codec (ripeState c) (range rt seed (externalStates c))).
  rewrite compile_gzip_blob, gunzip_gzip_blob.
  split; [reflexivity |]. split; [reflexivity |].
  split; [apply range_perm |].
  intros ->. reflexivity.
Qed.

(** C2 fails as stated: on an odd seed the runtime below yields source
    ["b"] before source ["a"], and the decompressed blob is not the text
    with the sources ordered by name. *)
Lemma blob_text_not_ordered_by_name :
  exists seed : nat, forall codec : GzipCodec,
    exists blob text,
      (compileFinalDataBlobFromCache (gzip.lib codec) flip_iteration seed two_sources).1
      = Some blob /\
      gunzip codec blob = Some text /\
      text <> spec_text two_sources.
Proof.
  exists 1%nat. intros codec.
  exists (gzip_blob codec (ripeState two_sources)
            (range flip_iteration 1 (externalStates two_sources))).
  eexists. split; [now rewrite compile_gzip_blob |].
  split; [apply gunzip_gzip_blob |].
  vm_compute. discriminate.
Qed.

(** C9: over the buffer-backed gzip writer at [BestCompression] the
    compilation takes no error branch and returns a non-nil slice, for
    every StateStore content; so a batch in which a probe brought new data
    always publishes and advances the content timestamp. *)
Theorem compilation_never_fails codec rt seed c :
  (exists data,
      (compileFinalDataBlobFromCache (gzip.lib codec) rt seed c).1 = Some data) /\
  count_events is_error_log
    (compileFinalDataBlobFromCache (gzip.lib codec) rt seed c).2 = 0%nat /\
  (forall Format env,
      (probed rt env c).2 = true ->
      exists data,
        compressedData (updaterBatch (gzip.lib codec) rt Format env c).1 = Some data /\
        lastUpdate (updaterBatch (gzip.lib codec) rt Format env c).1 = now env).
Proof.
  split; [| split].
  - rewrite compile_gzip_blob. eexists. reflexivity.
  - rewrite compile_gzip_blob. reflexivity.
  - intros Format env Hchanged.
    rewrite updaterBatch_state, updaterBatch_body_probed, Hchanged.
    rewrite compile_gzip_blob. simpl. eexists. split; reflexivity.
Qed.

(** C10: with no RIPE lines the decompressed blob is the header line
    followed by an empty line and the external sections; an external
    source holding no lines contributes exactly one line feed, between the
    sections of the sources visited before and after it. *)
Theorem empty_sections_keep_newline codec rt seed c name :
  (exists blob,
      (compileFinalDataBlobFromCache (gzip.lib codec) rt seed
         (set_ripeState [] c)).1 = Some blob /\
      gunzip codec blob
      = Some (header +:+ LF +:+ sections_text (range rt seed (externalStates c)))) /\
  (exists pre post blob,
      range rt seed (<[name := []]> (externalStates c)) = pre ++ (name, []) :: post /\
      (compileFinalDataBlobFromCache (gzip.lib codec) rt seed
         (set_externalStates (<[name := []]> (externalStates c)) c)).1 = Some blob /\
      gunzip codec blob
      = Some (header +:+ (Join (ripeState c) LF +:+ LF) +:+
              sections_text pre +:+ LF +:+ sections_text post)).
Proof.
  split.
  - eexists. rewrite compile_gzip_blob. split; [reflexivity |].
    rewrite gunzip_gzip_blob. reflexivity.
  - assert (Hin : (name, @nil string)
                  ∈ range rt seed (<[name := []]> (externalStates c))).
    { rewrite range_perm. apply elem_of_map_to_list, lookup_insert_eq. }
    apply list_elem_of_split in Hin as (pre & post & Hsplit).
    exists pre, post. eexists.
    split; [exact Hsplit |].
    rewrite compile_gzip_blob. split; [reflexivity |].
    rewrite gunzip_gzip_blob. simpl. rewrite Hsplit.
    unfold blob_text, section_text. rewrite sections_text_app. reflexivity.
Qed.

(** ** The trace of a batch *)

Lemma writeExternal_failure gz entries : forall z failure,
  writeExternal gz z entries = inr failure -> plain_log failure.
Proof.
  induction entries as [|[name lines] rest IH]; intros z failure; simpl.
  - discriminate.
  - destruct (Copy gz z (Join lines LF)) as [z1 [e|]].
    + intros [= <-]. eexists Error, _. split; [reflexivity | discriminate].
    + destruct (gz_Write gz z1 LF) as [z2 [e|]].
      * intros [= <-]. eexists Error, _. split; [reflexivity | discriminate].
      * apply IH.
Qed.

Lemma compile_trace_logs gz rt seed c :
  Forall plain_log (compileFinalDataBlobFromCache gz rt seed c).2.
Proof.
  assert (Hi : forall f, plain_log (EvLog Info f)) by (intros f; now exists Info, f).
  assert (He : forall f, plain_log (EvLog Error f)) by (intros f; now exists Error, f).
  unfold compileFinalDataBlobFromCache.
  destruct (gz_NewWriterLevel gz _ _) as [z|e]; [| now repeat constructor].
  destruct (gz_Write gz z header) as [z1 [e|]]; [now repeat constructor |].
  destruct (Copy gz z1 _) as [z2 [e|]]; [now repeat constructor |].
  destruct (gz_Write gz z2 LF) as [z3 [e|]]; [now repeat constructor |].
  destruct (writeExternal gz z3 _) as [z4|failure] eqn:Hext.
  - destruct (gz_Close gz z4) as [z5 [e|]]; now repeat constructor.
  - apply writeExternal_failure in Hext. now repeat constructor.
Qed.

Lemma plain_log_inner e : plain_log e -> inner_log e.
Proof.
  intros (lvl & format & -> & Hlvl). exists lvl, format. split; [reflexivity |].
  unfold batch_start. congruence.
Qed.

Lemma body_trace_logs gz rt env batchStart c :
  Forall inner_log (updaterBatch_body gz rt env batchStart c).2.
Proof.
  rewrite updaterBatch_body_probed.
  destruct ((probed rt env c).2).
  - pose proof (compile_trace_logs gz rt (seed_merge env) (probed rt env c).1) as Hlog.
    destruct (compileFinalDataBlobFromCache gz rt (seed_merge env) (probed rt env c).1)
      as [[d|] log]; simpl in *.
    + apply Forall_app. split.
      * eapply Forall_impl; [exact Hlog | apply plain_log_inner].
      * repeat constructor. eexists Debug, _. split; [reflexivity | discriminate].
    + eapply Forall_impl; [exact Hlog | apply plain_log_inner].
  - repeat constructor. eexists Info, _. split; [reflexivity | discriminate].
Qed.

Lemma count_events_app P t1 t2 :
  count_events P (t1 ++ t2) = (count_events P t1 + count_events P t2)%nat.
Proof. unfold count_events. now rewrite filter_app, length_app. Qed.

Lemma count_events_none P t :
  Forall (fun e => P e = false) t -> count_events P t = 0%nat.
Proof.
  unfold count_events. induction 1 as [|e t He _ IH]; [reflexivity |].
  rewrite filter_cons. destruct (decide (P e = true)); [congruence | exact IH].
Qed.

Lemma inner_log_not_status e : inner_log e -> is_status e = false.
Proof. now intros (lvl & format & -> & _). Qed.

Lemma inner_log_not_start e : inner_log e -> bool_decide (e = batch_start) = false.
Proof. intros (lvl & format & _ & Hne). now apply bool_decide_eq_false. Qed.

Lemma body_trace_no_status gz rt env batchStart c :
  count_events is_status (updaterBatch_body gz rt env batchStart c).2 = 0%nat.
Proof.
  apply count_events_none.
  eapply Forall_impl; [apply body_trace_logs | apply inner_log_not_status].
Qed.

(** ** Counting lines *)

Lemma sum_lines_nonneg entries : 0 <= sum_lines entries.
Proof.
  induction entries as [|e rest IH]; simpl; [lia |].
  unfold len. lia.
Qed.

Lemma sum_lines_perm l1 l2 : l1 ≡ₚ l2 -> sum_lines l1 = sum_lines l2.
Proof. induction 1; simpl in *; lia. Qed.

Lemma wrap_int_small z : int_min <= z <= int_max -> wrap_int z = z.
Proof.
  unfold int_min, int_max, wrap_int. intros Hz.
  rewrite Z.mod_small; lia.
Qed.

Lemma count_from entries : forall acc,
  0 <= acc -> acc + sum_lines entries <= int_max ->
  foldl (fun externalLines e => int_add externalLines (len e.2)) acc entries
  = acc + sum_lines entries.
Proof.
  induction entries as [|e rest IH]; intros acc Hacc Hmax; simpl in *.
  - lia.
  - pose proof (sum_lines_nonneg rest) as Hrest.
    assert (Hlen : 0 <= len e.2) by (unfold len; lia).
    unfold int_add at 2. rewrite wrap_int_small by (unfold int_min; lia).
    rewrite IH by lia. lia.
Qed.

Lemma countExternalLines_total (rt : MapIteration) seed m :
  total_lines m <= int_max ->
  countExternalLines (range rt seed m) = total_lines m.
Proof.
  intros Hmax. unfold countExternalLines, total_lines in *.
  fold (sum_lines (map_to_list m)) in *.
  rewrite <- (sum_lines_perm _ _ (range_perm rt _ seed m)) in *.
  rewrite count_from; lia.
Qed.

(** ** The status report *)

Lemma updaterBatch_trace gz rt Format env c :
  (updaterBatch gz rt Format env c).2
  = (batch_start :: (updaterBatch_body gz rt env (now env) c).2)
    ++ updateStatus Format (statusUpdate env)
         (len (ripeState (updaterBatch gz rt Format env c).1))
         (len_map (externalStates (updaterBatch gz rt Format env c).1))
         (countExternalLines
            (range rt (seed_count env)
                   (externalStates (updaterBatch gz rt Format env c).1)))
         (lastUpdate (updaterBatch gz rt Format env c).1)
         (lastBatch (updaterBatch gz rt Format env c).1).
Proof. rewrite updaterBatch_unfold. reflexivity. Qed.

Lemma batch_prefix_no_status gz rt env batchStart c :
  count_events is_status
    (batch_start :: (updaterBatch_body gz rt env batchStart c).2) = 0%nat.
Proof.
  change (batch_start :: ?t) with ([batch_start] ++ t).
  rewrite count_events_app, body_trace_no_status. reflexivity.
Qed.

(** C6: the string handed to the status sink is the fixed format filled
    with the number of RIPE lines, the number of external sources and the
    sum of their line counts, all read from the state the batch leaves,
    and with the content-change and batch-attempt timestamps of that
    state; it is the only call of the sink in the batch.  (The sum is
    taken on Go's [int]: it is the sum as long as that fits.) *)
Theorem status_message_format gz rt Format env c :
  let c' := (updaterBatch gz rt Format env c).1 in
  total_lines (externalStates c') <= int_max ->
  exists before after,
    (updaterBatch gz rt Format env c).2
    = before
      ++ EvStatus ("RIPE: " +:+ FormatInt (len (ripeState c')) +:+
                   " range(s) | External: " +:+
                   FormatInt (len_map (externalStates c')) +:+
                   " list(s) with a total of " +:+
                   FormatInt (total_lines (externalStates c')) +:+
                   " line(s) | Last modification: " +:+
                   Format (lastUpdate c') "2 Jan 2006 15:04:05 MST" +:+
                   " | Last update: " +:+
                   Format (lastBatch c') "2 Jan 2006 15:04:05 MST")
      :: after /\
    count_events is_status before = 0%nat /\
    count_events is_status after = 0%nat.
Proof.
  intros c' Hmax.
  exists (batch_start :: (updaterBatch_body gz rt env (now env) c).2).
  rewrite updaterBatch_trace. fold c'.
  rewrite (countExternalLines_total rt _ _ Hmax).
  unfold updateStatus.
  destruct (statusUpdate env _); eexists;
    (split; [reflexivity | split; [apply batch_prefix_no_status | reflexivity]]).
Qed.

Lemma status_message_format_witness :
  exists before after,
    (updaterBatch (gzip.lib plain_codec) sorted_iteration sample_Format
                  (sample_fresh 5) sample_controller).2
    = before
      ++ EvStatus "RIPE: 2 range(s) | External: 1 list(s) with a total of 2 line(s) | Last modification: 5 | Last update: 5"
      :: after /\
    count_events is_status before = 0%nat /\
    count_events is_status after = 0%nat.
Proof.
  apply (status_message_format (gzip.lib plain_codec) sorted_iteration
           sample_Format (sample_fresh 5) sample_controller).
  vm_compute. discriminate.
Defined.

Lemma probeExternal_sink sink env entries : forall c b,
  probeExternal (with_statusUpdate sink env) entries c b
  = probeExternal env entries c b.
Proof.
  induction entries as [|[name url] rest IH]; intros c b; simpl.
  - reflexivity.
  - destruct (getExternalBlockList (externalProbe env name url) name c) as [c1 fresh].
    apply IH.
Qed.

Lemma updaterBatch_body_sink gz rt sink env batchStart c :
  updaterBatch_body gz rt (with_statusUpdate sink env) batchStart c
  = updaterBatch_body gz rt env batchStart c.
Proof.
  unfold updaterBatch_body. simpl.
  destruct (updateRipe (ripeProbe env) c) as [c1 ru].
  now rewrite probeExternal_sink.
Qed.

(** C7: whatever the outcome of a batch, its batch-attempt timestamp is
    the batch's start time and the status sink is called exactly once, as
    the last call of the batch but for the log of its refusal; what the
    sink answers changes nothing in the state the batch leaves. *)
Theorem batch_always_reports gz rt Format env c :
  lastBatch (updaterBatch gz rt Format env c).1 = now env /\
  (exists before msg,
      (updaterBatch gz rt Format env c).2
      = before ++ EvStatus msg
          :: match statusUpdate env msg with
             | Some _ => [EvLog Error "[Updater] can't update status msg: %v"]
             | None => []
             end /\
      count_events is_status before = 0%nat) /\
  (forall sink,
      (updaterBatch gz rt Format (with_statusUpdate sink env) c).1
      = (updaterBatch gz rt Format env c).1).
Proof.
  split; [| split].
  - rewrite updaterBatch_state. reflexivity.
  - exists (batch_start :: (updaterBatch_body gz rt env (now env) c).2).
    rewrite updaterBatch_trace. unfold updateStatus.
    match goal with |- context [statusUpdate env ?m] => exists m end.
    split; [| apply batch_prefix_no_status].
    destruct (statusUpdate env _); reflexivity.
  - intros sink. rewrite !updaterBatch_state, updaterBatch_body_sink.
    reflexivity.
Qed.

(** ** The two timestamps *)

Lemma body_timestamps gz rt env batchStart c :
  lastBatch (updaterBatch_body gz rt env batchStart c).1 = lastBatch c /\
  (lastUpdate (updaterBatch_body gz rt env batchStart c).1 = lastUpdate c \/
   lastUpdate (updaterBatch_body gz rt env batchStart c).1 = batchStart).
Proof.
  rewrite updaterBatch_body_probed.
  pose proof (probed_snapshot rt env c) as Hs. unfold snapshot in Hs.
  destruct ((probed rt env c).2).
  - destruct (compileFinalDataBlobFromCache gz rt (seed_merge env) (probed rt env c).1)
      as [[d|] log]; simpl; split; try congruence;
      [right; reflexivity | left; congruence].
  - simpl. split; [congruence | left; congruence].
Qed.

Lemma batch_timestamps gz rt Format env c :
  lastUpdate c <= lastBatch c ->
  lastBatch c <= now env ->
  lastUpdate (updaterBatch gz rt Format env c).1
  <= lastBatch (updaterBatch gz rt Format env c).1 /\
  lastBatch (updaterBatch gz rt Format env c).1 = now env /\
  Forall (ordered_status Format) (updaterBatch gz rt Format env c).2.
Proof.
  intros Hinv Hclock.
  assert (Hle : lastUpdate (updaterBatch gz rt Format env c).1
                <= lastBatch (updaterBatch gz rt Format env c).1).
  { rewrite updaterBatch_state. simpl.
    destruct (body_timestamps gz rt env (now env) c) as [_ [-> | ->]]; lia. }
  split; [exact Hle |]. split; [now rewrite updaterBatch_state |].
  rewrite updaterBatch_trace. apply Forall_app. split.
  - constructor; [intros msg; discriminate |].
    eapply Forall_impl; [apply body_trace_logs |].
    intros e (lvl & format & -> & _) msg. discriminate.
  - unfold updateStatus.
    assert (Hst : ordered_status Format
              (EvStatus (status_message Format
                 (len (ripeState (updaterBatch gz rt Format env c).1))
                 (len_map (externalStates (updaterBatch gz rt Format env c).1))
                 (countExternalLines
                    (range rt (seed_count env)
                       (externalStates (updaterBatch gz rt Format env c).1)))
                 (lastUpdate (updaterBatch gz rt Format env c).1)
                 (lastBatch (updaterBatch gz rt Format env c).1)))).
    { intros msg [= <-]. do 5 eexists. split; [reflexivity | exact Hle]. }
    destruct (statusUpdate env _); repeat constructor; try exact Hst.
    intros msg. discriminate.
Qed.

Lemma loop_timestamps gz rt Format cases : forall c,
  lastUpdate c <= lastBatch c ->
  Sorted Z.le (lastBatch c :: clocks cases) ->
  lastUpdate (updater_loop gz rt Format cases c).1.1
  <= lastBatch (updater_loop gz rt Format cases c).1.1 /\
  Forall (ordered_status Format) (updater_loop gz rt Format cases c).1.2.
Proof.
  induction cases as [|[env|] rest IH]; intros c Hinv Hsorted; simpl.
  - split; [exact Hinv | constructor].
  - simpl in Hsorted. apply Sorted_inv in Hsorted as [Hrest Hhd].
    assert (Hclock : lastBatch c <= now env) by now inversion Hhd.
    destruct (batch_timestamps gz rt Format env c Hinv Hclock) as (H1 & H2 & H3).
    destruct (updaterBatch gz rt Format env c) as [c1 t1]. simpl in H1, H2, H3.
    rewrite <- H2 in Hrest.
    destruct (IH c1 H1 Hrest) as [H4 H5].
    destruct (updater_loop gz rt Format rest c1) as [[c2 t2] r]. simpl in *.
    split; [exact H4 | now apply Forall_app].
  - split; [exact Hinv |]. repeat constructor; intros msg; discriminate.
Qed.

(** C5, as the code has it: when the two timestamps are in order at the
    start and the clock never runs backwards, they are in order in the
    state every batch of the scheduler leaves, and in every status
    message, where the two are read. *)
Theorem timestamps_ordered_after_batches gz rt Format first cases c :
  lastUpdate c <= lastBatch c ->
  Sorted Z.le (lastBatch c :: now first :: clocks cases) ->
  lastUpdate (updater gz rt Format first cases c).1.1
  <= lastBatch (updater gz rt Format first cases c).1.1 /\
  Forall (ordered_status Format) (updater gz rt Format first cases c).1.2.
Proof.
  intros Hinv Hsorted. unfold updater.
  apply Sorted_inv in Hsorted as [Hrest Hhd].
  assert (Hclock : lastBatch c <= now first) by now inversion Hhd.
  destruct (batch_timestamps gz rt Format first c Hinv Hclock) as (H1 & H2 & H3).
  destruct (updaterBatch gz rt Format first c) as [c1 t1]. simpl in H1, H2, H3.
  rewrite <- H2 in Hrest.
  destruct (loop_timestamps gz rt Format cases c1 H1 Hrest) as [H4 H5].
  destruct (updater_loop gz rt Format cases c1) as [[c2 t2] r]. simpl in *.
  split; [exact H4 |].
  constructor; [intros msg; discriminate | now apply Forall_app].
Qed.

Lemma timestamps_ordered_after_batches_witness :
  lastUpdate
    (updater (gzip.lib plain_codec) flip_iteration sample_Format
             (sample_fresh 5) [Tick (sample_quiet 9); Done] sample_controller).1.1
  <= lastBatch
       (updater (gzip.lib plain_codec) flip_iteration sample_Format
                (sample_fresh 5) [Tick (sample_quiet 9); Done] sample_controller).1.1.
Proof.
  apply (timestamps_ordered_after_batches (gzip.lib plain_codec) flip_iteration
           sample_Format (sample_fresh 5) [Tick (sample_quiet 9); Done]
           sample_controller).
  - vm_compute. discriminate.
  - repeat constructor; vm_compute; discriminate.
Defined.

(** C5 fails as stated, in two ways.  In a batch that publishes, when
    the body returns (line 68, before the deferred function sets
    [lastBatch]) the content timestamp is the batch's start time while the
    batch-attempt timestamp is still that of the previous batch.  And when
    the clock is set back between a publishing batch and a quiet one, the
    state the quiet batch leaves, which its status message reads, has the
    content timestamp after the batch-attempt timestamp. *)
Lemma timestamps_out_of_order :
  (exists (env : BatchEnv) (c : Controller),
      lastUpdate c <= lastBatch c /\
      lastBatch c <= now env /\
      forall (codec : GzipCodec) (rt : MapIteration),
        lastBatch (updaterBatch_body (gzip.lib codec) rt env (now env) c).1
        < lastUpdate (updaterBatch_body (gzip.lib codec) rt env (now env) c).1) /\
  (exists (first second : BatchEnv) (c : Controller),
      lastUpdate c <= lastBatch c /\
      lastBatch c <= now first /\
      now second < now first /\
      lastBatch
        (updater (gzip.lib plain_codec) sorted_iteration sample_Format
                 first [Tick second] c).1.1
      < lastUpdate
          (updater (gzip.lib plain_codec) sorted_iteration sample_Format
                   first [Tick second] c).1.1).
Proof.
  split.
  - exists (sample_fresh 5), sample_controller.
    split; [vm_compute; discriminate |]. split; [vm_compute; discriminate |].
    intros codec rt. rewrite updaterBatch_body_probed.
    assert (Hchanged : (probed rt (sample_fresh 5) sample_controller).2 = true).
    { unfold probed. simpl. destruct (probeExternal _ _ _ _). reflexivity. }
    rewrite Hchanged, compile_gzip_blob.
    pose proof (probed_snapshot rt (sample_fresh 5) sample_controller) as Hs.
    unfold snapshot in Hs. simpl. injection Hs as _ _ ->. vm_compute. reflexivity.
  - exists (sample_fresh 10), (sample_quiet 5), sample_controller.
    repeat split; vm_compute; (reflexivity || discriminate).
Qed.

(** ** The scheduler *)

Lemma batch_starts_once gz rt Format env c :
  count_events is_batch_start (updaterBatch gz rt Format env c).2 = 1%nat.
Proof.
  rewrite updaterBatch_trace.
  change (batch_start :: ?t) with ([batch_start] ++ t).
  rewrite !count_events_app.
  rewrite (count_events_none _ (updaterBatch_body gz rt env (now env) c).2).
  - unfold updateStatus. destruct (statusUpdate env _); reflexivity.
  - eapply Forall_impl; [apply body_trace_logs | apply inner_log_not_start].
Qed.

Lemma run_batches_starts gz rt Format envs : forall c,
  count_events is_batch_start (run_batches gz rt Format envs c).2 = length envs.
Proof.
  induction envs as [|env rest IH]; intros c; simpl.
  - reflexivity.
  - pose proof (batch_starts_once gz rt Format env c) as H1.
    destruct (updaterBatch gz rt Format env c) as [c1 t1].
    specialize (IH c1).
    destruct (run_batches gz rt Format rest c1) as [c2 t2]. simpl in *.
    rewrite count_events_app. lia.
Qed.

Lemma updater_loop_ticks gz rt Format ticks tail : forall c,
  updater_loop gz rt Format (map Tick ticks ++ tail) c
  = ((updater_loop gz rt Format tail (run_batches gz rt Format ticks c).1).1.1,
     (run_batches gz rt Format ticks c).2
       ++ (updater_loop gz rt Format tail (run_batches gz rt Format ticks c).1).1.2,
     (updater_loop gz rt Format tail (run_batches gz rt Format ticks c).1).2).
Proof.
  induction ticks as [|env rest IH]; intros c; simpl.
  - now destruct (updater_loop gz rt Format tail c) as [[c2 t2] r].
  - destruct (updaterBatch gz rt Format env c) as [c1 t1].
    rewrite IH.
    destruct (run_batches gz rt Format rest c1) as [c2 t2]. simpl.
    now rewrite app_assoc.
Qed.

Lemma updater_ticks gz rt Format first ticks tail c :
  updater gz rt Format first (map Tick ticks ++ tail) c
  = ((updater_loop gz rt Format tail
        (run_batches gz rt Format (first :: ticks) c).1).1.1,
     EvNewTicker (frequency c)
       :: (run_batches gz rt Format (first :: ticks) c).2
       ++ (updater_loop gz rt Format tail
             (run_batches gz rt Format (first :: ticks) c).1).1.2,
     (updater_loop gz rt Format tail
        (run_batches gz rt Format (first :: ticks) c).1).2).
Proof.
  unfold updater. simpl.
  destruct (updaterBatch gz rt Format first c) as [c1 t1].
  rewrite updater_loop_ticks.
  destruct (run_batches gz rt Format ticks c1) as [c2 t2]. simpl.
  destruct (updater_loop gz rt Format tail c2) as [[c3 t3] r]. simpl.
  now rewrite app_assoc.
Qed.


(** * Further properties *)

(** ** Search terms *)

Lemma Split_cons (s : string) (sep : ascii) :
  exists field fields, Split s sep = field :: fields.
Proof.
  destruct s as [|a s]; simpl; [now eexists _, _ |].
  destruct (decide (a = sep)); [now eexists _, _ |].
  destruct (Split s sep); now eexists _, _.
Qed.

Lemma Join_cons_byte (a : ascii) (field : string) (fields : list string) (sep : string) :
  Join (String a field :: fields) sep = String a (Join (field :: fields) sep).
Proof. destruct fields; reflexivity. Qed.

Lemma Join_Split (s : string) (sep : ascii) (by_ : string) :
  Join (Split s sep) by_ = substitute sep by_ s.
Proof.
  induction s as [|a s IH]; [reflexivity |].
  destruct (Split_cons s sep) as (field & fields & Hs).
  cbn [Split substitute]. rewrite Hs in *.
  destruct (decide (a = sep)).
  - rewrite <- IH. reflexivity.
  - rewrite Join_cons_byte, IH. reflexivity.
Qed.

Lemma substitute_absent (sep : ascii) (by_ s : string) :
  occurrences sep s = 0%nat -> substitute sep by_ s = s.
Proof.
  induction s as [|a s IH]; [reflexivity |]. cbn [occurrences substitute].
  destruct (decide (a = sep)); [discriminate |].
  intros H. now rewrite IH.
Qed.

Lemma substitute_same (sep : ascii) (s : string) :
  substitute sep (String sep "") s = s.
Proof.
  induction s as [|a s IH]; [reflexivity |]. cbn [substitute].
  destruct (decide (a = sep)) as [->|]; now rewrite IH.
Qed.

Lemma substitute_app (sep : ascii) (by_ a b : string) :
  substitute sep by_ (a +:+ b) = substitute sep by_ a +:+ substitute sep by_ b.
Proof.
  induction a as [|x a IH]; [reflexivity |].
  rewrite string_app_cons. cbn [substitute].
  destruct (decide (x = sep)).
  - now rewrite IH, string_app_assoc.
  - now rewrite IH.
Qed.

(** X1: splitting at a byte loses nothing and invents nothing: there is
    one field more than there are separators (so never no field, and the
    empty string gives one empty field), no field holds the separator,
    and joining the fields with the separator gives the string back. *)
Theorem Split_fields (s : string) (sep : ascii) :
  length (Split s sep) = S (occurrences sep s) /\
  Forall (fun field => occurrences sep field = 0%nat) (Split s sep) /\
  Join (Split s sep) (String sep "") = s.
Proof.
  split; [| split].
  - induction s as [|a s IH]; [reflexivity |]. cbn [Split occurrences].
    destruct (Split_cons s sep) as (field & fields & Hs). rewrite Hs in *.
    destruct (decide (a = sep)); simpl in *; lia.
  - induction s as [|a s IH]; [repeat constructor |]. cbn [Split].
    destruct (Split_cons s sep) as (field & fields & Hs). rewrite Hs in *.
    inversion IH as [|? ? Hfield Hfields]; subst.
    destruct (decide (a = sep)) as [->|Hne].
    + constructor; [reflexivity | now constructor].
    + constructor; [| exact Hfields]. cbn [occurrences].
      destruct (decide (a = sep)); [contradiction | exact Hfield].
  - rewrite Join_Split. apply substitute_same.
Qed.

(** X2: the value of the parameter [q] that [Search] sends is the search
    string in brackets with every space replaced by [ AND ]; a search
    without a space is sent as it is, in brackets (the empty search as
    ["()"]), and two spaces in a row give an empty term between two
    [AND]. *)
Theorem query_replaces_spaces (search : string) :
  ripe.query search = "(" +:+ substitute " "%char " AND " search +:+ ")" /\
  (occurrences " "%char search = 0%nat -> ripe.query search = "(" +:+ search +:+ ")") /\
  (forall a b : string,
      ripe.query (a +:+ "  " +:+ b)
      = "(" +:+ substitute " "%char " AND " a +:+ " AND  AND "
            +:+ substitute " "%char " AND " b +:+ ")").
Proof.
  unfold ripe.query. rewrite Join_Split. split; [reflexivity |]. split.
  - intros Hnone. now rewrite substitute_absent.
  - intros a b. rewrite Join_Split, !substitute_app.
    change (substitute " "%char " AND " "  ") with (" AND  AND " +:+ "").
    now rewrite !string_app_assoc.
Qed.


(** ** What a compilation logs *)

Lemma writeExternal_failure_error gz entries : forall z failure,
  writeExternal gz z entries = inr failure -> is_error_log failure = true.
Proof.
  induction entries as [|[name lines] rest IH]; intros z failure; simpl.
  - discriminate.
  - destruct (Copy gz z (Join lines LF)) as [z1 [e|]].
    + now intros [= <-].
    + destruct (gz_Write gz z1 LF) as [z2 [e|]].
      * now intros [= <-].
      * apply IH.
Qed.


(** ** Iteration order *)

Lemma wrap_int_add_l a b : wrap_int (wrap_int a + b) = wrap_int (a + b).
Proof.
  unfold wrap_int. f_equal.
  replace ((a + 2 ^ 63) mod 2 ^ 64 - 2 ^ 63 + b + 2 ^ 63)
    with ((a + 2 ^ 63) mod 2 ^ 64 + b) by lia.
  rewrite Zplus_mod_idemp_l. f_equal. lia.
Qed.

Lemma count_wraps entries : forall a,
  foldl (fun externalLines e => int_add externalLines (len e.2)) (wrap_int a) entries
  = wrap_int (a + sum_lines entries).
Proof.
  induction entries as [|e rest IH]; intros a; simpl.
  - f_equal. lia.
  - unfold int_add at 2. rewrite wrap_int_add_l, IH. f_equal. lia.
Qed.

Lemma countExternalLines_wraps entries :
  countExternalLines entries = wrap_int (sum_lines entries).
Proof.
  unfold countExternalLines. change 0 with (wrap_int 0) at 1.
  now rewrite count_wraps.
Qed.

(** X5: the number of external lines in the status message does not
    depend on the order in which the runtime visits the map, even when
    the 64-bit counter wraps around: it is the sum of the line counts
    reduced to the range of [int]. *)
Theorem line_count_ignores_order (rt rt' : MapIteration) (s1 s2 : nat)
        (m : gmap string (list string)) :
  countExternalLines (range rt s1 m) = countExternalLines (range rt' s2 m) /\
  countExternalLines (range rt s1 m) = wrap_int (total_lines m).
Proof.
  rewrite !countExternalLines_wraps.
  rewrite (sum_lines_perm _ _ (range_perm rt _ s1 m)).
  rewrite (sum_lines_perm _ _ (range_perm rt' _ s2 m)).
  split; reflexivity.
Qed.

Lemma range_keys_NoDup (rt : MapIteration) {V} (seed : nat) (m : gmap string V) :
  NoDup (range rt seed m).*1.
Proof.
  rewrite (range_perm rt V seed m). apply NoDup_fst_map_to_list.
Qed.

Lemma probe_steps_commute env n1 u1 n2 u2 c b :
  n1 <> n2 ->
  probeExternal env [(n1, u1); (n2, u2)] c b
  = probeExternal env [(n2, u2); (n1, u1)] c b.
Proof.
  intros Hne. simpl.
  destruct (externalProbe env n1 u1) as [|l1], (externalProbe env n2 u2) as [|l2];
    simpl; try reflexivity.
  unfold set_externalStates. simpl. do 2 f_equal.
  apply insert_insert_ne. congruence.
Qed.

Lemma probeExternal_cons env e rest c b :
  probeExternal env (e :: rest) c b
  = probeExternal env rest (probeExternal env [e] c b).1
                  (probeExternal env [e] c b).2.
Proof.
  destruct e as [name url]. simpl.
  now destruct (getExternalBlockList (externalProbe env name url) name c).
Qed.

Lemma probeExternal_perm env l1 l2 :
  l1 ≡ₚ l2 -> NoDup l1.*1 ->
  forall c b, probeExternal env l1 c b = probeExternal env l2 c b.
Proof.
  induction 1 as [|e l1 l2 Hp IH|[n1 u1] [n2 u2] l|l1 l2 l3 Hp1 IH1 Hp2 IH2];
    intros Hnd c b.
  - reflexivity.
  - rewrite (probeExternal_cons env e l1), (probeExternal_cons env e l2).
    apply IH. now apply NoDup_cons_1_2 in Hnd.
  - assert (Hne : n2 <> n1).
    { apply NoDup_cons_1_1 in Hnd. simpl in Hnd. set_solver. }
    pose proof (probe_steps_commute env n2 u2 n1 u1 c b Hne) as Hswap.
    simpl in *.
    destruct (getExternalBlockList (externalProbe env n2 u2) n2 c) as [c1 f1].
    destruct (getExternalBlockList (externalProbe env n1 u1) n1 c) as [c2 f2].
    destruct (getExternalBlockList (externalProbe env n1 u1) n1 c1) as [c3 f3].
    destruct (getExternalBlockList (externalProbe env n2 u2) n2 c2) as [c4 f4].
    injection Hswap as -> ->. reflexivity.
  - rewrite IH1 by exact Hnd. apply IH2.
    now rewrite <- Hp1.
Qed.

(** X6: the probing loop ends in the same controller, with the same
    verdict on whether anything changed, in whatever order the runtime
    visits the configured lists: each name is probed once and writes its
    own slot only. *)
Theorem probing_ignores_order env (rt rt' : MapIteration) (s1 s2 : nat)
        (m : gmap string string) (c : Controller) (b : bool) :
  probeExternal env (range rt s1 m) c b = probeExternal env (range rt' s2 m) c b.
Proof.
  apply probeExternal_perm.
  - now rewrite !range_perm.
  - apply range_keys_NoDup.
Qed.

Lemma probeExternal_seeds s1 s2 s3 env entries : forall c b,
  probeExternal (with_seeds s1 s2 s3 env) entries c b
  = probeExternal env entries c b.
Proof.
  induction entries as [|[name url] rest IH]; intros c b; simpl.
  - reflexivity.
  - destruct (getExternalBlockList (externalProbe env name url) name c) as [c1 fresh].
    apply IH.
Qed.

Lemma probed_seeds (rt rt' : MapIteration) s1 s2 s3 env c :
  probed rt' (with_seeds s1 s2 s3 env) c = probed rt env c.
Proof.
  unfold probed. simpl.
  destruct (updateRipe (ripeProbe env) c) as [c1 ru].
  rewrite probeExternal_seeds.
  rewrite (probeExternal_perm env (range rt' s1 (blocklists c1))
             (range rt (seed_probe env) (blocklists c1))).
  - reflexivity.
  - now rewrite !range_perm.
  - apply range_keys_NoDup.
Qed.

Lemma body_state_gzip codec rt env batchStart c :
  (updaterBatch_body (gzip.lib codec) rt env batchStart c).1
  = if (probed rt env c).2
    then set_lastUpdate batchStart
           (set_compressedData
              (Some (gzip_blob codec (ripeState (probed rt env c).1)
                       (range rt (seed_merge env)
                              (externalStates (probed rt env c).1))))
              (probed rt env c).1)
    else (probed rt env c).1.
Proof.
  rewrite updaterBatch_body_probed, compile_gzip_blob.
  now destruct ((probed rt env c).2).
Qed.

Lemma body_trace_gzip codec rt env batchStart c :
  (updaterBatch_body (gzip.lib codec) rt env batchStart c).2
  = if (probed rt env c).2
    then [merging_log; compressed_log;
          EvLog Debug "[Updater] global cache updated"]
    else [EvLog Info "[Updater] No new data, keeping cache"].
Proof.
  rewrite updaterBatch_body_probed, compile_gzip_blob.
  now destruct ((probed rt env c).2).
Qed.

(** X7: over the buffer-backed gzip writer, the order in which the
    runtime visits the maps shows in the published blob and nowhere else:
    with other seeds and another runtime, a batch makes the same calls
    (the same status message among them) and leaves the same lines and
    the same two timestamps. *)
Theorem batch_ignores_order_but_for_blob codec (rt rt' : MapIteration) Format
        env (s1 s2 s3 : nat) c :
  let r := updaterBatch (gzip.lib codec) rt Format env c in
  let r' := updaterBatch (gzip.lib codec) rt' Format (with_seeds s1 s2 s3 env) c in
  r'.2 = r.2 /\
  ripeState r'.1 = ripeState r.1 /\
  externalStates r'.1 = externalStates r.1 /\
  lastUpdate r'.1 = lastUpdate r.1 /\
  lastBatch r'.1 = lastBatch r.1.
Proof.
  intros r r'.
  assert (Hstate : ripeState r'.1 = ripeState r.1 /\
                   externalStates r'.1 = externalStates r.1 /\
                   lastUpdate r'.1 = lastUpdate r.1 /\
                   lastBatch r'.1 = lastBatch r.1).
  { unfold r, r'. rewrite !updaterBatch_state, !body_state_gzip.
    rewrite (probed_seeds rt rt'). simpl.
    destruct ((probed rt env c).2); repeat split; reflexivity. }
  split; [| exact Hstate].
  destruct Hstate as (Hr & He & Hu & Hb).
  unfold r, r' in *. rewrite !updaterBatch_trace, !body_trace_gzip.
  rewrite (probed_seeds rt rt'), Hr, He, Hu, Hb. simpl.
  now rewrite !countExternalLines_wraps,
    (sum_lines_perm _ _ (range_perm rt' _ s3 _)),
    (sum_lines_perm _ _ (range_perm rt _ (seed_count env) _)).
Qed.

(** ** What a batch does to the lines *)

Lemma probeExternal_ripeState env entries : forall c b,
  ripeState (probeExternal env entries c b).1 = ripeState c.
Proof.
  induction entries as [|[name url] rest IH]; intros c b; simpl.
  - reflexivity.
  - destruct (externalProbe env name url); simpl; now rewrite IH.
Qed.

Lemma probeExternal_blocklists env entries : forall c b,
  blocklists (probeExternal env entries c b).1 = blocklists c.
Proof.
  induction entries as [|[name url] rest IH]; intros c b; simpl.
  - reflexivity.
  - destruct (externalProbe env name url); simpl; now rewrite IH.
Qed.

Lemma probeExternal_flag_true env entries : forall c,
  (probeExternal env entries c true).2 = true.
Proof.
  induction entries as [|[name url] rest IH]; intros c; simpl.
  - reflexivity.
  - destruct (externalProbe env name url); simpl; apply IH.
Qed.

Lemma probeExternal_quiet_slot env name entries : forall c b,
  (forall url, (name, url) ∈ entries -> externalProbe env name url = NoChange) ->
  externalStates (probeExternal env entries c b).1 !! name
  = externalStates c !! name.
Proof.
  induction entries as [|[n u] rest IH]; intros c b Hquiet; simpl.
  - reflexivity.
  - assert (Hrest : forall url, (name, url) ∈ rest ->
                                externalProbe env name url = NoChange)
      by (intros url Hin; apply Hquiet; now right).
    destruct (externalProbe env n u) as [|lines] eqn:Hprobe; simpl.
    + now apply IH.
    + rewrite IH by exact Hrest. simpl.
      destruct (decide (n = name)) as [->|Hne].
      * rewrite Hquiet in Hprobe by now left. discriminate.
      * now rewrite lookup_insert_ne.
Qed.

Lemma probeExternal_fresh_slot env name url lines entries : forall c b,
  NoDup entries.*1 ->
  (name, url) ∈ entries ->
  externalProbe env name url = Fresh lines ->
  externalStates (probeExternal env entries c b).1 !! name = Some lines /\
  (probeExternal env entries c b).2 = true.
Proof.
  induction entries as [|[n u] rest IH]; intros c b Hnd Hin Hfresh.
  - now apply elem_of_nil in Hin.
  - apply NoDup_cons in Hnd as [Hhead Hnd].
    apply elem_of_cons in Hin as [[= <- <-]|Hin].
    + simpl. rewrite Hfresh. simpl. split; [| apply probeExternal_flag_true].
      rewrite probeExternal_quiet_slot.
      * simpl. apply lookup_insert_eq.
      * intros url' Hin'. exfalso. apply Hhead.
        apply list_elem_of_fmap. now exists (name, url').
    + simpl. destruct (getExternalBlockList (externalProbe env n u) n c) as [c1 f].
      now apply IH.
Qed.

Lemma probed_ripeState rt env c :
  ripeState (probed rt env c).1
  = match ripeProbe env with NoChange => ripeState c | Fresh lines => lines end.
Proof.
  unfold probed.
  destruct (ripeProbe env) as [|lines]; simpl;
    match goal with
    | |- context [probeExternal env ?l ?c0 false] =>
      pose proof (probeExternal_ripeState env l c0 false) as H;
      destruct (probeExternal env l c0 false)
    end; exact H.
Qed.

Lemma probed_ripe_fresh rt env c lines :
  ripeProbe env = Fresh lines -> (probed rt env c).2 = true.
Proof.
  intros Hfresh. unfold probed. rewrite Hfresh. simpl.
  now destruct (probeExternal _ _ _ _).
Qed.

Lemma probed_quiet_slot rt env c name :
  (forall url, blocklists c !! name = Some url ->
               externalProbe env name url = NoChange) ->
  externalStates (probed rt env c).1 !! name = externalStates c !! name.
Proof.
  intros Hquiet. unfold probed.
  pose proof (updateRipe_snapshot (ripeProbe env) c) as _.
  assert (Hc1 : blocklists (updateRipe (ripeProbe env) c).1 = blocklists c /\
                externalStates (updateRipe (ripeProbe env) c).1 = externalStates c)
    by (destruct (ripeProbe env); split; reflexivity).
  destruct (updateRipe (ripeProbe env) c) as [c1 ru]. simpl in Hc1.
  destruct Hc1 as [Hb He].
  pose proof (probeExternal_quiet_slot env name
                (range rt (seed_probe env) (blocklists c1)) c1 false) as H.
  destruct (probeExternal env _ c1 false) as [c2 eu]. simpl in *.
  rewrite H, He; [reflexivity |].
  intros url Hin. apply Hquiet. rewrite <- Hb.
  apply elem_of_map_to_list. now rewrite <- (range_perm rt _ (seed_probe env)).
Qed.

Lemma probed_fresh_slot rt env c name url lines :
  blocklists c !! name = Some url ->
  externalProbe env name url = Fresh lines ->
  externalStates (probed rt env c).1 !! name = Some lines /\
  (probed rt env c).2 = true.
Proof.
  intros Hcfg Hfresh. unfold probed.
  assert (Hb : blocklists (updateRipe (ripeProbe env) c).1 = blocklists c)
    by (destruct (ripeProbe env); reflexivity).
  destruct (updateRipe (ripeProbe env) c) as [c1 ru]. simpl in Hb.
  destruct (probeExternal_fresh_slot env name url lines
              (range rt (seed_probe env) (blocklists c1)) c1 false) as [H1 H2].
  - apply range_keys_NoDup.
  - rewrite range_perm, Hb. now apply elem_of_map_to_list.
  - exact Hfresh.
  - destruct (probeExternal env _ c1 false) as [c2 eu]. simpl in *.
    split; [exact H1 |]. rewrite H2. now destruct ru.
Qed.

Lemma batch_lines gz rt Format env c :
  ripeState (updaterBatch gz rt Format env c).1 = ripeState (probed rt env c).1 /\
  externalStates (updaterBatch gz rt Format env c).1
  = externalStates (probed rt env c).1.
Proof.
  rewrite updaterBatch_state, updaterBatch_body_probed.
  destruct ((probed rt env c).2); [| split; reflexivity].
  destruct (compileFinalDataBlobFromCache gz rt (seed_merge env) (probed rt env c).1)
    as [[d|] log]; split; reflexivity.
Qed.

(** X8: a batch leaves alone the lines of every source that had nothing
    new: the RIPE lines when the authoritative probe reports no change,
    and the slot of every name whose probe reports no change or that is
    not configured at all, whatever the other probes bring and whether or
    not the compilation succeeds. *)
Theorem quiet_sources_keep_their_lines gz rt Format env c :
  (ripeProbe env = NoChange ->
   ripeState (updaterBatch gz rt Format env c).1 = ripeState c) /\
  (forall name,
      (forall url, blocklists c !! name = Some url ->
                   externalProbe env name url = NoChange) ->
      externalStates (updaterBatch gz rt Format env c).1 !! name
      = externalStates c !! name).
Proof.
  destruct (batch_lines gz rt Format env c) as [-> ->]. split.
  - intros Hquiet. now rewrite probed_ripeState, Hquiet.
  - intros name Hquiet. now apply probed_quiet_slot.
Qed.



(** X10: when the authoritative probe brings lines, the batch publishes
    them whatever the external probes answer: the blob decompresses to
    the header, those lines joined by line feeds and followed by one, and
    the external sections as they stand after the batch. *)
Theorem fresh_ripe_lines_published codec rt Format env c lines :
  ripeProbe env = Fresh lines ->
  exists blob,
    compressedData (updaterBatch (gzip.lib codec) rt Format env c).1 = Some blob /\
    lastUpdate (updaterBatch (gzip.lib codec) rt Format env c).1 = now env /\
    gunzip codec blob
    = Some (header +:+ (Join lines LF +:+ LF) +:+
            sections_text
              (range rt (seed_merge env)
                 (externalStates (updaterBatch (gzip.lib codec) rt Format env c).1))).
Proof.
  intros Hfresh.
  destruct (batch_lines (gzip.lib codec) rt Format env c) as [_ Hext].
  rewrite Hext, updaterBatch_state, body_state_gzip,
    (probed_ripe_fresh rt env c lines Hfresh). simpl.
  eexists. split; [reflexivity |]. split; [reflexivity |].
  now rewrite gunzip_gzip_blob, probed_ripeState, Hfresh.
Qed.

Lemma fresh_ripe_lines_published_witness :
  exists blob,
    compressedData
      (updaterBatch (gzip.lib plain_codec) sorted_iteration sample_Format
                    (sample_fresh 5) sample_controller).1 = Some blob /\
    lastUpdate
      (updaterBatch (gzip.lib plain_codec) sorted_iteration sample_Format
                    (sample_fresh 5) sample_controller).1 = 5 /\
    gunzip plain_codec blob
    = Some (header +:+
            (Join ["A, 1.2.3.0/24, AS1"; "B, 4.5.6.0/24, AS2"] LF +:+ LF) +:+
            sections_text
              (range sorted_iteration 0
                 (externalStates
                    (updaterBatch (gzip.lib plain_codec) sorted_iteration sample_Format
                                  (sample_fresh 5) sample_controller).1))).
Proof.
  apply (fresh_ripe_lines_published plain_codec sorted_iteration sample_Format
           (sample_fresh 5) sample_controller).
  reflexivity.
Defined.

(** ** The published snapshot over time *)

(** X11: whatever the compression library does, a batch either leaves
    the published blob and the content timestamp both as they were, or
    replaces the blob by a non-nil one and sets the content timestamp to
    the batch's start time: the two never change one without the other,
    and a batch never resets the blob to nil. *)
Theorem blob_and_timestamp_change_together gz rt Format env c :
  (compressedData (updaterBatch gz rt Format env c).1 = compressedData c /\
   lastUpdate (updaterBatch gz rt Format env c).1 = lastUpdate c) \/
  (exists d,
      compressedData (updaterBatch gz rt Format env c).1 = Some d /\
      lastUpdate (updaterBatch gz rt Format env c).1 = now env /\
      (probed rt env c).2 = true).
Proof.
  rewrite updaterBatch_state, updaterBatch_body_probed.
  pose proof (probed_snapshot rt env c) as Hs. unfold snapshot in Hs.
  destruct ((probed rt env c).2).
  - destruct (compileFinalDataBlobFromCache gz rt (seed_merge env) (probed rt env c).1)
      as [[d|] log]; simpl.
    + right. now exists d.
    + left. split; congruence.
  - left. simpl. split; congruence.
Qed.

Lemma batch_keeps_blob gz rt Format env c :
  is_Some (compressedData c) ->
  is_Some (compressedData (updaterBatch gz rt Format env c).1).
Proof.
  intros Hsome.
  rewrite updaterBatch_state, updaterBatch_body_probed.
  pose proof (probed_snapshot rt env c) as Hs. unfold snapshot in Hs.
  assert (Hkept : is_Some (compressedData (probed rt env c).1))
    by (injection Hs as -> _ _; exact Hsome).
  destruct ((probed rt env c).2); [| exact Hkept].
  destruct (compileFinalDataBlobFromCache gz rt (seed_merge env) (probed rt env c).1)
    as [[d|] log]; simpl; [now exists d | exact Hkept].
Qed.

Lemma loop_keeps_blob gz rt Format cases : forall c,
  is_Some (compressedData c) ->
  is_Some (compressedData (updater_loop gz rt Format cases c).1.1).
Proof.
  induction cases as [|[env|] rest IH]; intros c Hsome; simpl.
  - exact Hsome.
  - pose proof (batch_keeps_blob gz rt Format env c Hsome) as H1.
    destruct (updaterBatch gz rt Format env c) as [c1 t1]. simpl in H1.
    specialize (IH c1 H1).
    now destruct (updater_loop gz rt Format rest c1) as [[c2 t2] r].
  - exact Hsome.
Qed.

(** X12: once a blob is published the scheduler never takes it away:
    whatever the probes, the compression library and the cases selected,
    a controller that holds a blob when the scheduler starts still holds
    one afterwards; failed compilations keep the previous blob. *)
Theorem published_blob_stays gz rt Format first cases c :
  is_Some (compressedData c) ->
  is_Some (compressedData (updater gz rt Format first cases c).1.1).
Proof.
  intros Hsome. unfold updater.
  pose proof (batch_keeps_blob gz rt Format first c Hsome) as H1.
  destruct (updaterBatch gz rt Format first c) as [c1 t1]. simpl in H1.
  pose proof (loop_keeps_blob gz rt Format cases c1 H1) as H2.
  now destruct (updater_loop gz rt Format cases c1) as [[c2 t2] r].
Qed.

Lemma published_blob_stays_witness :
  is_Some
    (compressedData
       (updater broken_gzip flip_iteration sample_Format (sample_fresh 5)
                [Tick (sample_quiet 9); Tick (sample_fresh 12); Done]
                (set_compressedData (Some "previous blob") sample_controller)).1.1).
Proof.
  apply (published_blob_stays broken_gzip flip_iteration sample_Format
           (sample_fresh 5)
           [Tick (sample_quiet 9); Tick (sample_fresh 12); Done]
           (set_compressedData (Some "previous blob") sample_controller)).
  now exists "previous blob".
Defined.

(** ** The lines of the published text *)

Lemma occurrences_app (a : ascii) (s t : string) :
  occurrences a (s +:+ t) = (occurrences a s + occurrences a t)%nat.
Proof.
  induction s as [|x s IH]; [reflexivity |].
  rewrite string_app_cons. cbn [occurrences]. rewrite IH. lia.
Qed.

Lemma line_feeds_app (s t : string) :
  line_feeds (s +:+ t) = line_feeds s + line_feeds t.
Proof. unfold line_feeds. rewrite occurrences_app. lia. Qed.

Lemma line_feeds_Join (lines : list string) :
  Forall single_line lines ->
  line_feeds (Join lines LF) = Z.max 0 (len lines - 1).
Proof.
  induction 1 as [|line rest Hline Hrest IH]; [reflexivity |].
  destruct rest as [|next rest].
  - unfold line_feeds, len. simpl. rewrite Hline. reflexivity.
  - change (Join (line :: next :: rest) LF)
      with (line +:+ LF +:+ Join (next :: rest) LF).
    rewrite !line_feeds_app, IH.
    unfold line_feeds at 1. rewrite Hline.
    change (line_feeds LF) with 1. unfold len. simpl length. lia.
Qed.

Lemma line_feeds_section (lines : list string) :
  Forall single_line lines ->
  line_feeds (section_text lines) = section_lines lines.
Proof.
  intros Hlines. unfold section_text, section_lines.
  rewrite line_feeds_app, line_feeds_Join by exact Hlines.
  change (line_feeds LF) with 1. unfold len. lia.
Qed.

Lemma line_feeds_sections (entries : list (string * list string)) :
  Forall (fun e => Forall single_line e.2) entries ->
  line_feeds (sections_text entries) = sections_lines entries.
Proof.
  induction 1 as [|[name lines] rest Hlines Hrest IH]; [reflexivity |].
  simpl. rewrite line_feeds_app, line_feeds_section, IH by exact Hlines.
  reflexivity.
Qed.

Lemma sections_lines_perm l1 l2 : l1 ≡ₚ l2 -> sections_lines l1 = sections_lines l2.
Proof. induction 1; simpl in *; lia. Qed.

(** X13: when no held line contains a line feed, the published text has
    one line for the header, one per RIPE line and one per external line,
    and one more for every section without lines (an empty RIPE result or
    an external source holding nothing still takes one, empty, line): a
    count that does not depend on the order of the sections. *)
Theorem published_text_line_count codec rt seed c :
  Forall single_line (ripeState c) ->
  (forall name lines, externalStates c !! name = Some lines ->
                      Forall single_line lines) ->
  exists blob text,
    (compileFinalDataBlobFromCache (gzip.lib codec) rt seed c).1 = Some blob /\
    gunzip codec blob = Some text /\
    line_feeds text
    = 1 + Z.max 1 (len (ripeState c))
      + sections_lines (map_to_list (externalStates c)).
Proof.
  intros Hripe Hext.
  rewrite compile_gzip_blob. eexists _, _.
  split; [reflexivity |]. split; [apply gunzip_gzip_blob |].
  unfold blob_text. rewrite !line_feeds_app.
  rewrite line_feeds_section by exact Hripe.
  rewrite line_feeds_sections.
  - rewrite (sections_lines_perm _ _ (range_perm rt _ seed (externalStates c))).
    change (line_feeds header) with 1. unfold section_lines. lia.
  - apply Forall_forall. intros [name lines] Hin. simpl.
    apply (Hext name). apply elem_of_map_to_list.
    now rewrite <- (range_perm rt _ seed (externalStates c)).
Qed.

Lemma published_text_line_count_witness :
  exists blob text,
    (compileFinalDataBlobFromCache (gzip.lib plain_codec) flip_iteration 1
       two_sources).1 = Some blob /\
    gunzip plain_codec blob = Some text /\
    line_feeds text
    = 1 + Z.max 1 (len (ripeState two_sources))
      + sections_lines (map_to_list (externalStates two_sources)).
Proof.
  apply (published_text_line_count plain_codec flip_iteration 1 two_sources).
  - constructor.
  - intros name lines Hlookup.
    assert (Hin : (name, lines) ∈ map_to_list (externalStates two_sources))
      by now apply elem_of_map_to_list.
    vm_compute in Hin.
    apply elem_of_cons in Hin as [[= -> ->]|Hin];
      [repeat constructor |].
    apply elem_of_cons in Hin as [[= -> ->]|Hin];
      [repeat constructor |].
    now apply elem_of_nil in Hin.
Defined.

(** ** When a batch compiles *)

Lemma compile_announced_once gz rt seed c :
  count_events is_merging_log (compileFinalDataBlobFromCache gz rt seed c).2 = 1%nat.
Proof.
  unfold compileFinalDataBlobFromCache.
  destruct (gz_NewWriterLevel gz _ _) as [z|e]; [| reflexivity].
  destruct (gz_Write gz z header) as [z1 [e|]]; [reflexivity |].
  destruct (Copy gz z1 _) as [z2 [e|]]; [reflexivity |].
  destruct (gz_Write gz z2 LF) as [z3 [e|]]; [reflexivity |].
  destruct (writeExternal gz z3 _) as [z4|failure] eqn:Hext.
  - destruct (gz_Close gz z4) as [z5 [e|]]; reflexivity.
  - apply writeExternal_failure_error in Hext.
    destruct failure as [[| |] format| | |]; try discriminate Hext.
    reflexivity.
Qed.

(** X14: a batch runs the merge exactly when a probe brought new data:
    its trace holds the announcement of a compilation once in that case
    and not at all in a batch without news, which goes straight to the
    status report. *)
Theorem batch_compiles_only_on_news gz rt Format env c :
  count_events is_merging_log (updaterBatch gz rt Format env c).2
  = if (probed rt env c).2 then 1%nat else 0%nat.
Proof.
  rewrite updaterBatch_trace.
  change (batch_start :: ?t) with ([batch_start] ++ t).
  rewrite !count_events_app.
  assert (Hstatus : forall n m k t1 t2,
             count_events is_merging_log
               (updateStatus Format (statusUpdate env) n m k t1 t2) = 0%nat).
  { intros. unfold updateStatus. now destruct (statusUpdate env _). }
  rewrite Hstatus, updaterBatch_body_probed.
  pose proof (compile_announced_once gz rt (seed_merge env) (probed rt env c).1) as H1.
  destruct ((probed rt env c).2); [| reflexivity].
  destruct (compileFinalDataBlobFromCache gz rt (seed_merge env) (probed rt env c).1)
    as [[d|] log]; simpl in *.
  - rewrite count_events_app, H1. reflexivity.
  - rewrite H1. reflexivity.
Qed.

(** ** The configuration *)

Lemma batch_configuration gz rt Format env c :
  configuration (updaterBatch gz rt Format env c).1 = configuration c.
Proof.
  rewrite updaterBatch_state, updaterBatch_body_probed.
  assert (Hp : configuration (probed rt env c).1 = configuration c).
  { unfold probed.
    assert (H1 : configuration (updateRipe (ripeProbe env) c).1 = configuration c)
      by (destruct (ripeProbe env); reflexivity).
    destruct (updateRipe (ripeProbe env) c) as [c1 ru]. simpl in H1.
    assert (H2 : forall entries c0 b,
               configuration (probeExternal env entries c0 b).1 = configuration c0).
    { induction entries as [|[name url] rest IH]; intros c0 b; simpl;
        [reflexivity |].
      destruct (externalProbe env name url); simpl; now rewrite IH. }
    specialize (H2 (range rt (seed_probe env) (blocklists c1)) c1 false).
    destruct (probeExternal env _ c1 false) as [c2 eu]. simpl in *. congruence. }
  destruct ((probed rt env c).2); [| exact Hp].
  destruct (compileFinalDataBlobFromCache gz rt (seed_merge env) (probed rt env c).1)
    as [[d|] log]; exact Hp.
Qed.

Lemma loop_configuration gz rt Format cases : forall c,
  configuration (updater_loop gz rt Format cases c).1.1 = configuration c.
Proof.
  induction cases as [|[env|] rest IH]; intros c; simpl; try reflexivity.
  pose proof (batch_configuration gz rt Format env c) as H1.
  destruct (updaterBatch gz rt Format env c) as [c1 t1]. simpl in H1.
  specialize (IH c1).
  destruct (updater_loop gz rt Format rest c1) as [[c2 t2] r]. simpl in *.
  congruence.
Qed.

(** X15: the scheduler never changes what was configured: the refresh
    interval and the set of configured lists with their locations are,
    after any number of batches and whatever they meet, those it started
    with; so every batch probes the same lists. *)
Theorem updater_keeps_configuration gz rt Format first cases c :
  frequency (updater gz rt Format first cases c).1.1 = frequency c /\
  blocklists (updater gz rt Format first cases c).1.1 = blocklists c.
Proof.
  assert (H : configuration (updater gz rt Format first cases c).1.1
              = configuration c).
  { unfold updater.
    pose proof (batch_configuration gz rt Format first c) as H1.
    destruct (updaterBatch gz rt Format first c) as [c1 t1]. simpl in H1.
    pose proof (loop_configuration gz rt Format cases c1) as H2.
    destruct (updater_loop gz rt Format cases c1) as [[c2 t2] r]. simpl in *.
    congruence. }
  unfold configuration in H. split; congruence.
Qed.
